(** * Verification of the generation pipeline of [app/llm_generator.py]

    The development embeds the pure text helpers ([_strip_code_block],
    [generate_readme_fallback]), the extraction of text from the decoded
    JSON reply ([ai_pipe_generate]) and the retry loop and final parse of
    [generate_app_code], and settles the properties stated about them.

    Python strings are sequences of Unicode code points; they are modelled
    as lists of code points, so that [str.strip] and [str.splitlines] keep
    their full tables of white space and line boundaries. *)

From Stdlib Require Import Ascii String DecimalString SpecFloat.
From Stdlib Require Import List Bool Arith NArith ZArith Lia.
Import ListNotations.

(** ** Python strings *)

Definition char := N.
Definition str := list char.

(** A source literal (all literals of the module that reach a string value
    are ASCII). *)
Definition lit (s : string) : str := map N_of_ascii (list_ascii_of_string s).

Definition nl : char := 0x0A%N.
Definition backtick : char := 0x60%N.

(** [ch.isspace()] as used by [str.strip()] with no argument. *)
Definition isspace (c : char) : bool :=
  ((0x09 <=? c) && (c <=? 0x0D) || (0x1C <=? c) && (c <=? 0x20)
   || (c =? 0x85) || (c =? 0xA0) || (c =? 0x1680)
   || (0x2000 <=? c) && (c <=? 0x200A)
   || (c =? 0x2028) || (c =? 0x2029) || (c =? 0x202F) || (c =? 0x205F)
   || (c =? 0x3000))%N.

(** The line boundaries of [str.splitlines()]. *)
Definition islinebreak (c : char) : bool :=
  ((0x0A <=? c) && (c <=? 0x0D) || (0x1C <=? c) && (c <=? 0x1E)
   || (c =? 0x85) || (c =? 0x2028) || (c =? 0x2029))%N.

Fixpoint str_eqb (a b : str) : bool :=
  match a, b with
  | [], [] => true
  | x :: a', y :: b' => (x =? y)%N && str_eqb a' b'
  | _, _ => false
  end.

(** [s.startswith(pat)]. *)
Fixpoint startswith (pat s : str) : bool :=
  match pat, s with
  | [], _ => true
  | _ :: _, [] => false
  | p :: pat', c :: s' => (p =? c)%N && startswith pat' s'
  end.

(** [pat in s] for two strings. *)
Fixpoint contains (pat s : str) : bool :=
  match s with
  | [] => startswith pat []
  | _ :: s' => startswith pat s || contains pat s'
  end.

(** The text before and after the first occurrence of [sep], if any. *)
Fixpoint cut (sep s : str) : option (str * str) :=
  if startswith sep s then Some ([], skipn (length sep) s)
  else match s with
       | [] => None
       | c :: s' =>
           match cut sep s' with
           | Some (a, b) => Some (c :: a, b)
           | None => None
           end
       end.

(** [s.split(sep, 1)]: a list of one or two strings. *)
Definition split1 (sep s : str) : list str :=
  match cut sep s with
  | Some (a, b) => [a; b]
  | None => [s]
  end.

(** [s.split(sep)] for a non-empty [sep].  Every cut removes at least one
    character, so [length s] rounds are enough ([split_parts]). *)
Fixpoint split_fuel (fuel : nat) (sep s : str) : list str :=
  match fuel with
  | O => [s]
  | S fuel' =>
      match cut sep s with
      | Some (a, b) => a :: split_fuel fuel' sep b
      | None => [s]
      end
  end.

Definition split (sep s : str) : list str := split_fuel (length s) sep s.

Fixpoint lstrip (s : str) : str :=
  match s with
  | [] => []
  | c :: s' => if isspace c then lstrip s' else s
  end.

Definition rstrip (s : str) : str := rev (lstrip (rev s)).

(** [s.strip()]. *)
Definition strip (s : str) : str := rstrip (lstrip s).

(** [s.splitlines()]: lines without their boundaries; a carriage return
    followed by a line feed is one boundary; no empty last line. *)
Fixpoint splitlines_from (cur : str) (s : str) : list str :=
  match s with
  | [] => match cur with [] => [] | _ :: _ => [rev cur] end
  | c :: s' =>
      if islinebreak c then
        rev cur ::
          match s' with
          | c' :: s'' =>
              if (c =? 0x0D)%N && (c' =? 0x0A)%N then splitlines_from [] s''
              else splitlines_from [] s'
          | [] => splitlines_from [] s'
          end
      else splitlines_from (c :: cur) s'
  end.

Definition splitlines (s : str) : list str := splitlines_from [] s.

(** [sep.join(l)]. *)
Fixpoint join (sep : str) (l : list str) : str :=
  match l with
  | [] => []
  | [x] => x
  | x :: l' => x ++ sep ++ join sep l'
  end.

(** [str(n)] for an integer. *)
Definition str_of_int (n : Z) : str := lit (NilZero.string_of_int (Z.to_int n)).

(** The positions at which [pat] occurs in [s], overlapping ones included,
    counted from [i]. *)
Fixpoint occurrences_from (i : nat) (pat s : str) : list nat :=
  (if startswith pat s then [i] else []) ++
  match s with
  | [] => []
  | _ :: s' => occurrences_from (S i) pat s'
  end.

Definition occurrences (pat s : str) : list nat := occurrences_from 0 pat s.

(** ** Utility helpers *)

Definition fence : str := lit "```".
Definition marker : str := lit "---README.md---".

(** [_strip_code_block] *)
Definition _strip_code_block (text : str) : str :=
  if contains fence text then
    let parts := split fence text in
    if 2 <=? length parts then strip (nth 1 parts [])
    else strip text
  else strip text.

(** [x or []], [x or ""]: an absent or empty value reads as the empty one. *)
Definition or_empty {A} (x : option (list A)) : list A :=
  match x with
  | Some l => l
  | None => []
  end.

(** [generate_readme_fallback]: [checks] and [attachments_meta] default to
    [None]. *)
Definition generate_readme_fallback (brief : str) (checks : option (list str))
    (attachments_meta : option str) (round_num : Z) : str :=
  let checks_text := join [nl] (or_empty checks) in
  let att_text := or_empty attachments_meta in
  lit "# Auto-generated README (Round " ++ str_of_int round_num ++ lit ")

**Project brief:** " ++ brief ++ lit "

**Attachments:**
" ++ att_text ++ lit "

**Checks to meet:**
" ++ checks_text ++ lit "

## Setup
1. Open `index.html` in a browser.
2. No build steps required.

## Notes
This README was generated as a fallback (AIpipe did not return an explicit README).
".

(** ** Values decoded from JSON

    [r.json()] yields [None], a [bool], an [int], a [float], a [str], a
    [list] or a [dict] with string keys.  A [float] is an IEEE 754 value
    (only the zeros are false).  A [dict] is kept as the list of its items
    in insertion order; the decoder leaves each key once. *)
#[warnings="-register-all"]
Inductive json : Type :=
| JNull
| JBool (b : bool)
| JInt (n : Z)
| JFloat (f : spec_float)
| JStr (s : str)
| JArr (l : list json)
| JObj (kv : list (str * json)).

Inductive transport_error := ConnectionError | HTTPError | Timeout.

Inductive exn :=
| RequestException (e : transport_error)
| JSONDecodeError
| AttributeError
| TypeError
| KeyError
| IndexError
| ValueError.

(** What one [requests.post(...)], [r.raise_for_status()], [r.json()]
    sequence comes to. *)
Inductive reply :=
| Failed (e : transport_error)
| NotJson
| Body (data : json).

(** Truth value of a Python object; a sequence is true when not empty. *)
Definition nonempty {A} (l : list A) : bool :=
  match l with
  | [] => false
  | _ :: _ => true
  end.

Definition truthy (v : json) : bool :=
  match v with
  | JNull => false
  | JBool b => b
  | JInt n => negb (n =? 0)%Z
  | JFloat f => match f with S754_zero _ => false | _ => true end
  | JStr s => nonempty s
  | JArr l => nonempty l
  | JObj kv => nonempty kv
  end.

(** [d.get(k)] as an option, [k in d]. *)
Fixpoint dict_get (k : str) (kv : list (str * json)) : option json :=
  match kv with
  | [] => None
  | (k', v) :: kv' => if str_eqb k k' then Some v else dict_get k kv'
  end.

Definition dict_has (k : str) (kv : list (str * json)) : bool :=
  match dict_get k kv with Some _ => true | None => false end.

Definition get_default (o : option json) (d : json) : json :=
  match o with Some v => v | None => d end.

(** ** Exceptions *)

Definition result (A : Type) : Type := (exn + A)%type.

Definition rbind {A B} (m : result A) (k : A -> result B) : result B :=
  match m with
  | inl e => inl e
  | inr a => k a
  end.

Fixpoint foldM {A B} (f : A -> B -> result A) (a : A) (l : list B) : result A :=
  match l with
  | [] => inr a
  | b :: l' => rbind (f a b) (fun a' => foldM f a' l')
  end.

(** [for x in v]: the elements of a list, the characters of a string, the
    keys of a dict; anything else is not iterable. *)
Definition py_iter (v : json) : result (list json) :=
  match v with
  | JArr l => inr l
  | JStr s => inr (map (fun c => JStr [c]) s)
  | JObj kv => inr (map (fun p => JStr (fst p)) kv)
  | _ => inl TypeError
  end.

(** [needle in v] for a string [needle]. *)
Definition py_contains (needle : str) (v : json) : result bool :=
  match v with
  | JStr s => inr (contains needle s)
  | JArr l =>
      inr (existsb (fun x => match x with JStr s => str_eqb needle s | _ => false end) l)
  | JObj kv => inr (dict_has needle kv)
  | _ => inl TypeError
  end.

(** The receiver of [v.split(...)]: only a string has the method. *)
Definition as_str (v : json) : result str :=
  match v with
  | JStr s => inr s
  | _ => inl AttributeError
  end.

(** [a, b = l] *)
Definition unpack2 (l : list str) : result (str * str) :=
  match l with
  | [a; b] => inr (a, b)
  | _ => inl ValueError
  end.

(** ** Text extraction of [ai_pipe_generate] (lines 38 to 64) *)

(** Body of [for c in item.get("content", [])]. *)
Definition content_step (text : str) (c : json) : result str :=
  match c with
  | JObj kv =>
      match dict_get (lit "text") kv with
      | Some (JStr t) => inr (text ++ t)
      | Some _ => inl TypeError
      | None => inr text
      end
  | JStr s => inr (text ++ s)
  | _ => inr text
  end.

(** Body of [for item in data["output"]]. *)
Definition output_step (text : str) (item : json) : result str :=
  match item with
  | JObj kv =>
      rbind (py_iter (get_default (dict_get (lit "content") kv) (JArr [])))
            (foldM content_step text)
  | _ => inl AttributeError
  end.

(** Body of [for ch in data["choices"]]. *)
Definition choices_step (text : str) (ch : json) : result str :=
  match ch with
  | JObj kv =>
      match get_default (dict_get (lit "message") kv) (JObj []) with
      | JObj msg =>
          let content := get_default (dict_get (lit "content") msg) (JStr []) in
          if truthy content then
            match content with
            | JStr s => inr (text ++ s)
            | _ => inl TypeError
            end
          else inr text
      | _ => inl AttributeError
      end
  | _ => inl AttributeError
  end.

Definition extract_text (data : json) : result json :=
  match data with
  | JObj kv =>
      if truthy (get_default (dict_get (lit "output_text") kv) JNull) then
        match dict_get (lit "output_text") kv with
        | Some v => inr v
        | None => inl KeyError
        end
      else if dict_has (lit "output") kv then
        match dict_get (lit "output") kv with
        | Some out =>
            rbind (py_iter out) (fun items =>
            rbind (foldM output_step [] items) (fun text => inr (JStr text)))
        | None => inl KeyError
        end
      else if dict_has (lit "choices") kv then
        match dict_get (lit "choices") kv with
        | Some chs =>
            rbind (py_iter chs) (fun items =>
            rbind (foldM choices_step [] items) (fun text => inr (JStr text)))
        | None => inl KeyError
        end
      else inr (JStr [])
  | _ => inl AttributeError
  end.

(** ** Effects: calls to the remote service and pauses

    A run is followed through the list of its effects, oldest first.  The
    remote service is any function of the number of earlier calls and of
    the prompt. *)
Inductive event :=
| Post (prompt : str)
| Sleep (seconds : nat).

Definition trace := list event.

Definition is_post (e : event) : bool :=
  match e with Post _ => true | Sleep _ => false end.

Definition posts (t : trace) : list event := filter is_post t.

Definition M (A : Type) : Type := trace -> result A * trace.

Definition ret {A} (a : A) : M A := fun t => (inr a, t).

Definition raise {A} (e : exn) : M A := fun t => (inl e, t).

Definition bind {A B} (m : M A) (k : A -> M B) : M B :=
  fun t =>
    match m t with
    | (inl e, t') => (inl e, t')
    | (inr a, t') => k a t'
    end.

Definition lift {A} (r : result A) : M A := fun t => (r, t).

Declare Scope py_scope.
Delimit Scope py_scope with py.
Notation "x <- m ;; k" := (bind m (fun x => k))
  (at level 61, m at next level, right associativity) : py_scope.
Notation "' p <- m ;; k" := (bind m (fun x => let p := x in k))
  (at level 61, p pattern, m at next level, right associativity) : py_scope.
Notation "m ;;; k" := (bind m (fun _ => k))
  (at level 61, right associativity) : py_scope.

(** Attachments; their decoding and previews go through the file system. *)
Record attachment := { att_name : option str; att_url : str }.

Record saved_attachment :=
  { saved_name : str; saved_path : str; saved_mime : str; saved_size : nat }.

(** The two keys of [files], and the opening of the closing note of the
    fallback README. *)
Definition index_html : str := lit "index.html".
Definition readme_md : str := lit "README.md".
Definition fallback_note : str := lit "This README was generated as a fallback".

(** [{"files": files, "attachments": saved}], [files] a dict of two keys. *)
Record generation_result :=
  { files : list (str * str); attachments : list saved_attachment }.

Fixpoint lookup (k : str) (d : list (str * str)) : option str :=
  match d with
  | [] => None
  | (k', v) :: d' => if str_eqb k k' then Some v else lookup k d'
  end.

Definition max_attempts : nat := 2.

(** The quality gate of line 183 on the list of lines [lines] of the
    candidate: the first line is looked up only when the length test
    holds. *)
Definition gate_on (lines : list str) (readme_candidate : str) : result bool :=
  if 50 <? length (strip readme_candidate) then
    match nth_error lines 0 with
    | Some first =>
        inr (contains (lit "# ") first || contains (lit "Overview") readme_candidate)
    | None => inl IndexError
    end
  else inr false.

Definition readme_gate (readme_candidate : str) : result bool :=
  gate_on (splitlines readme_candidate) readme_candidate.

Section Pipeline.

Open Scope py_scope.

(** The remote service: reply to the call made after [n] earlier ones. *)
Variable remote : nat -> str -> reply.

(** [decode_attachments] and [summarize_attachment_meta] write and read
    files; [str()] of the list of checks follows the Unicode tables of
    printable characters.  They are left open. *)
Variable decode_attachments : list attachment -> list saved_attachment.
Variable summarize_attachment_meta : list saved_attachment -> str.
Variable repr_checks : list str -> str.

Definition http_post (prompt : str) : M reply :=
  fun t => (inr (remote (length (posts t)) prompt), t ++ [Post prompt]).

Definition sleep (seconds : nat) : M unit :=
  fun t => (inr tt, t ++ [Sleep seconds]).

(** [ai_pipe_generate].  The [print] of the decoded reply (line 36) is
    left out, as are those of [generate_app_code]: the definitions
    describe the runs in which printing goes through. *)
Definition ai_pipe_generate (prompt : str) : M json :=
  r <- http_post prompt ;;
  match r with
  | Failed e => raise (RequestException e)
  | NotJson => raise JSONDecodeError
  | Body data => lift (extract_text data)
  end.

Definition context_note (round_num : Z) (prev_readme : option str) : str :=
  if (round_num =? 2)%Z && nonempty (or_empty prev_readme) then
    lit "
### Previous README.md:
" ++ or_empty prev_readme ++ lit "

Revise and enhance this project according to the new brief below.
"
  else [].

Definition base_prompt (brief : str) (attachments_meta : str)
    (checks : option (list str)) (round_num : Z) (prev_readme : option str) : str :=
  lit "
You are a professional web developer assistant.

### Round
" ++ str_of_int round_num ++ lit "

### Task
" ++ brief ++ lit "

" ++ context_note round_num prev_readme ++ lit "

### Attachments (if any)
" ++ attachments_meta ++ lit "

### Evaluation checks
" ++ repr_checks (or_empty checks) ++ lit "

### Output format rules:
1. Produce a complete web app (HTML/JS/CSS inline if needed) satisfying the brief.
2. Output must contain **two parts only**:
   - index.html (main code)
   - README.md (starts after a line containing exactly: ---README.md---)
3. README.md must include:
   - Overview
   - Setup
   - Usage
   - If Round 2, describe improvements made from previous version.
4. Do not include any commentary outside code or README.
".

(** The [for attempt in range(1, max_attempts + 1)] loop (lines 176 to
    195) over the attempts left; the result is [response_text].  The
    [print] calls are left out. *)
Fixpoint attempt_loop (prompt : str) (todo : list nat) : M (option str) :=
  match todo with
  | [] => ret None
  | attempt :: rest =>
      text <- ai_pipe_generate prompt ;;
      found <- lift (if truthy text then py_contains marker text else inr false) ;;
      if (found : bool) then
        s <- lift (as_str text) ;;
        '(_, readme_part) <- lift (unpack2 (split1 marker s)) ;;
        let readme_candidate := _strip_code_block readme_part in
        ok <- lift (readme_gate readme_candidate) ;;
        if (ok : bool) then ret (Some s)
        else if attempt <? max_attempts then sleep 1 ;;; attempt_loop prompt rest
        else attempt_loop prompt rest
      else if attempt <? max_attempts then sleep 1 ;;; attempt_loop prompt rest
      else attempt_loop prompt rest
  end.

Definition fallback_response (brief : str) (checks : option (list str))
    (attachments_meta : str) (round_num : Z) : str :=
  lit "
<html>
  <head><title>Fallback App</title></head>
  <body>
    <h1>Hello (fallback)</h1>
    <p>This app was generated as a fallback because AIpipe failed. Brief: " ++ brief ++ lit "</p>
  </body>
</html>

---README.md---
" ++ generate_readme_fallback brief checks (Some attachments_meta) round_num ++ lit "
".

(** The final parse (lines 213 to 223). *)
Definition parse_final (brief : str) (checks : option (list str))
    (attachments_meta : str) (round_num : Z) (response_text : str)
    : result (list (str * str)) :=
  rbind
    (if contains marker response_text then
       rbind (unpack2 (split1 marker response_text)) (fun '(code_part, readme_part) =>
       let code_part := _strip_code_block code_part in
       let readme_part := _strip_code_block readme_part in
       if length (strip readme_part) <? 20 then
         inr (code_part,
              generate_readme_fallback brief checks (Some attachments_meta) round_num)
       else inr (code_part, readme_part))
     else
       inr (_strip_code_block response_text,
            generate_readme_fallback brief checks (Some attachments_meta) round_num))
    (fun '(code_part, readme_part) =>
       inr [(lit "index.html", code_part); (lit "README.md", readme_part)]).

(** [generate_app_code] *)
Definition generate_app_code (brief : str) (atts : option (list attachment))
    (checks : option (list str)) (round_num : Z) (prev_readme : option str)
    : M generation_result :=
  let saved := decode_attachments (or_empty atts) in
  let attachments_meta := summarize_attachment_meta saved in
  let prompt := base_prompt brief attachments_meta checks round_num prev_readme in
  response_text <- attempt_loop prompt (seq 1 max_attempts) ;;
  let response_text :=
    if nonempty (or_empty response_text) then or_empty response_text
    else fallback_response brief checks attachments_meta round_num in
  fs <- lift (parse_final brief checks attachments_meta round_num response_text) ;;
  ret {| files := fs; attachments := saved |}.

(** A run from the empty trace. *)
Definition run {A} (m : M A) : result A * trace := m [].

End Pipeline.

(** ** The attachment materializer *)

(** [s.replace(old, new)] for a non-empty [old]: the parts between the
    occurrences of [old], joined by [new]. *)
Definition replace (old new s : str) : str := join new (split old s).

(** [s.endswith(suffix)] *)
Definition endswith (s suffix : str) : bool := startswith (rev suffix) (rev s).

(** [att.get("name") or "attachment"] *)
Definition attachment_name (att : attachment) : str :=
  match att_name att with
  | Some ((_ :: _) as name) => name
  | _ => lit "attachment"
  end.

(** [header.split(";")[0].replace("data:", "")] *)
Definition mime_of_header (header : str) : str :=
  replace (lit "data:") [] (nth 0 (split (lit ";") header) []).

(** [data.replace("\n", "\\n")[:500]] on the 500 characters read. *)
Definition preview_of (content : str) : str :=
  firstn 500 (replace [nl] (lit "\n") (firstn 500 content)).

Definition text_suffixes : list str :=
  [lit ".md"; lit ".txt"; lit ".json"; lit ".csv"].

Section Materializer.

(** The state of the file system, and what the libraries do: the outcome of
    [base64.b64decode] (the bytes, or nothing when it raises), the text of
    [TMP_DIR / name], the effect of opening a file for writing and writing
    the bytes (the new state, and whether it went through), and the text of
    a file opened for reading with undecodable bytes ignored (or the message
    of the exception). *)
Variable fs : Type.
Variable b64decode : str -> option (list Byte.byte).
Variable tmp_path : str -> str.
Variable write_file : fs -> str -> list Byte.byte -> fs * bool.
Variable read_text : fs -> str -> str + str.

(** Body of the loop of [decode_attachments] (lines 74 to 87): a failure
    inside [try] is caught and the attachment is left out.  The handler
    prints the name and the exception (line 87); standard output is not
    part of the state, and the definition describes the runs in which
    that [print] goes through.  (It raises [UnicodeEncodeError] for a name
    that standard output cannot encode, and [decode_attachments] then
    does not return.) *)
Definition decode_step (acc : list saved_attachment * fs) (att : attachment)
    : list saved_attachment * fs :=
  let name := attachment_name att in
  let url := att_url att in
  if negb (startswith (lit "data:") url) then acc
  else
    match unpack2 (split1 (lit ",") url) with
    | inl _ => acc
    | inr (header, b64data) =>
        let mime := mime_of_header header in
        match b64decode b64data with
        | None => acc
        | Some data =>
            let path := tmp_path name in
            let (st, ok) := write_file (snd acc) path data in
            if ok then
              (fst acc ++ [{| saved_name := name; saved_path := path;
                              saved_mime := mime; saved_size := length data |}],
               st)
            else (fst acc, st)
        end
    end.

(** [decode_attachments]: the records saved and the file system left. *)
Definition decode_attachments (st : fs) (attachments : option (list attachment))
    : list saved_attachment * fs :=
  fold_left decode_step (or_empty attachments) ([], st).

(** The line of one saved attachment in [summarize_attachment_meta] (lines
    93 to 103). *)
Definition summary_line (st : fs) (s : saved_attachment) : str :=
  let nm := saved_name s in
  let p := saved_path s in
  let mime := saved_mime s in
  if startswith (lit "text") mime || existsb (endswith nm) text_suffixes then
    match read_text st p with
    | inr content =>
        lit "- " ++ nm ++ lit " (" ++ mime ++ lit "): preview: "
          ++ preview_of content
    | inl e =>
        lit "- " ++ nm ++ lit " (" ++ mime ++ lit "): (could not read preview: "
          ++ e ++ lit ")"
    end
  else
    lit "- " ++ nm ++ lit " (" ++ mime ++ lit "): "
      ++ str_of_int (Z.of_nat (saved_size s)) ++ lit " bytes".

(** [summarize_attachment_meta] *)
Definition summarize_attachment_meta (st : fs) (saved : list saved_attachment)
    : str :=
  join [nl] (map (summary_line st) saved).

End Materializer.

Arguments decode_step {fs}.
Arguments decode_attachments {fs}.
Arguments summary_line {fs}.
Arguments summarize_attachment_meta {fs}.

(** The number of occurrences of a character. *)
Definition count_char (c : char) (s : str) : nat := length (filter (N.eqb c) s).

(** A sample file system: the files written, latest first; a decoder that
    knows one payload; paths under the temporary directory. *)
Definition sample_fs : Type := list (str * list Byte.byte).

Definition sample_b64decode (payload : str) : option (list Byte.byte) :=
  if str_eqb payload (lit "aGVsbG8=")
  then Some [Byte.x68; Byte.x65; Byte.x6c; Byte.x6c; Byte.x6f]
  else None.

Definition sample_tmp_path (name : str) : str :=
  lit "/tmp/llm_attachments/" ++ name.

Definition sample_write_file (st : sample_fs) (path : str)
    (data : list Byte.byte) : sample_fs * bool :=
  ((path, data) :: st, true).

Fixpoint sample_read_text (st : sample_fs) (path : str) : str + str :=
  match st with
  | [] => inl (lit "No such file or directory")
  | (p, data) :: st' =>
      if str_eqb p path then inr (map (fun b => N_of_ascii (ascii_of_byte b)) data)
      else sample_read_text st' path
  end.

(** Sample attachments: an inline text file, and a link. *)
Definition sample_inline : attachment :=
  {| att_name := Some (lit "a.txt");
     att_url := lit "data:text/plain;base64,aGVsbG8=" |}.

Definition sample_link : attachment :=
  {| att_name := Some (lit "logo.png"); att_url := lit "https://example.org/logo.png" |}.

Definition sample_record : saved_attachment :=
  {| saved_name := lit "a.txt";
     saved_path := lit "/tmp/llm_attachments/a.txt";
     saved_mime := lit "text/plain";
     saved_size := 5 |}.

(** ** Auxiliary readings used in the statements *)

(** With a fence in the text, the second part of the split is the text
    between the first fence and the next one, or the end. *)
Definition second_part (b : str) : str :=
  match cut fence b with
  | Some (a', _) => a'
  | None => b
  end.

(** What the accepted shapes carry, read off without the loops. *)
Definition entry_text (c : json) : str :=
  match c with
  | JObj kv => match dict_get (lit "text") kv with Some (JStr t) => t | _ => [] end
  | JStr s => s
  | _ => []
  end.

Definition entry_ok (c : json) : bool :=
  match c with
  | JObj kv =>
      match dict_get (lit "text") kv with
      | Some (JStr _) | None => true
      | Some _ => false
      end
  | _ => true
  end.

Definition item_entries (item : json) : list json :=
  match item with
  | JObj kv =>
      match dict_get (lit "content") kv with
      | Some (JArr l) => l
      | _ => []
      end
  | _ => []
  end.

Definition item_ok (item : json) : bool :=
  match item with
  | JObj kv =>
      match dict_get (lit "content") kv with
      | Some (JArr l) => forallb entry_ok l
      | Some _ => false
      | None => true
      end
  | _ => false
  end.

Definition item_text (item : json) : str :=
  concat (map entry_text (item_entries item)).

Definition message_content (ch : json) : json :=
  match ch with
  | JObj kv =>
      match dict_get (lit "message") kv with
      | Some (JObj msg) => get_default (dict_get (lit "content") msg) (JStr [])
      | _ => JStr []
      end
  | _ => JStr []
  end.

Definition choice_ok (ch : json) : bool :=
  match ch with
  | JObj kv =>
      match dict_get (lit "message") kv with
      | Some (JObj msg) =>
          match get_default (dict_get (lit "content") msg) (JStr []) with
          | JStr _ => true
          | v => negb (truthy v)
          end
      | Some _ => false
      | None => true
      end
  | _ => false
  end.

Definition choice_text (ch : json) : str :=
  match message_content ch with
  | JStr s => s
  | _ => []
  end.

(** A character that does not occur in the pattern; a text that ends, or
    starts, with such a character. *)
Definition outside (p : str) (x : char) : bool := negb (existsb (N.eqb x) p).

Definition ends_outside (p s : str) : bool :=
  match rev s with
  | x :: _ => outside p x
  | [] => false
  end.

Definition starts_outside (p s : str) : bool :=
  match s with
  | x :: _ => outside p x
  | [] => false
  end.

(** The page of the fallback response, trimmed. *)
Definition fallback_page (brief : str) : str :=
  lit "<html>
  <head><title>Fallback App</title></head>
  <body>
    <h1>Hello (fallback)</h1>
    <p>This app was generated as a fallback because AIpipe failed. Brief: " ++ brief ++ lit "</p>
  </body>
</html>".

(** What follows the marker in the output format rules of the prompt. *)
Definition rules_tail : str := lit ")
3. README.md must include:
   - Overview
   - Setup
   - Usage
   - If Round 2, describe improvements made from previous version.
4. Do not include any commentary outside code or README.
".

(** ** One attempt, without the effects *)

(** What [ai_pipe_generate] makes of a reply. *)
Definition reply_text (r : reply) : result json :=
  match r with
  | Failed e => inl (RequestException e)
  | NotJson => inl JSONDecodeError
  | Body data => extract_text data
  end.

(** What the loop body makes of the text of an attempt: the accepted
    response text, or nothing. *)
Definition examine (text : json) : result (option str) :=
  rbind (if truthy text then py_contains marker text else inr false) (fun found =>
  if (found : bool) then
    rbind (as_str text) (fun s =>
    rbind (unpack2 (split1 marker s)) (fun '(_, readme_part) =>
    rbind (readme_gate (_strip_code_block readme_part)) (fun ok =>
    inr (if (ok : bool) then Some s else None))))
  else inr None).

Definition attempt_verdict (r : reply) : result (option str) :=
  rbind (reply_text r) examine.

(** What follows the loop in [generate_app_code] (lines 197 to 224), for
    the [response_text] the loop left. *)
Definition finish (saved : list saved_attachment) (brief : str)
    (checks : option (list str)) (attachments_meta : str) (round_num : Z)
    (response_text : option str) : result generation_result :=
  let response_text :=
    if nonempty (or_empty response_text) then or_empty response_text
    else fallback_response brief checks attachments_meta round_num in
  rbind (parse_final brief checks attachments_meta round_num response_text)
        (fun fs => inr {| files := fs; attachments := saved |}).

(** ** Sample collaborators for the closed examples *)

Definition no_files : list attachment -> list saved_attachment := fun _ => [].
Definition no_summary : list saved_attachment -> str := fun _ => [].

(** [str()] of a list of strings that need no escaping. *)
Definition repr_plain (l : list str) : str :=
  lit "[" ++ join (lit ", ") (map (fun c => lit "'" ++ c ++ lit "'") l) ++ lit "]".

(** A service that answers the first call with [r0] and later ones with
    [r1]; a reply whose full-text field is [s]. *)
Definition remote_then (r0 r1 : reply) : nat -> str -> reply :=
  fun n _ => match n with O => r0 | S _ => r1 end.

Definition says (s : str) : reply := Body (JObj [(lit "output_text", JStr s)]).

Definition sample_page : str := lit "<p>ok</p>".

Definition sample_readme : str := lit "
# Todo

Overview: a small list of tasks kept in the browser.".

(** The value of ["index.html"] in what a run returned. *)
Definition returned_index (o : result generation_result * trace) : option str :=
  match fst o with
  | inr g => lookup index_html (files g)
  | inl _ => None
  end.

(** * Properties *)

(** ** Strings *)

Lemma str_eqb_eq (a b : str) : str_eqb a b = true <-> a = b.
Proof.
  revert b; induction a as [|x a IH]; intros [|y b]; simpl; split;
    try easy; intro H.
  - apply andb_true_iff in H as [Hx Hab].
    apply N.eqb_eq in Hx. apply IH in Hab. now subst.
  - injection H as -> ->. rewrite N.eqb_refl. now apply IH.
Qed.

Lemma startswith_app (p r : str) : startswith p (p ++ r) = true.
Proof.
  induction p as [|x p IH]; simpl; [reflexivity|].
  now rewrite N.eqb_refl.
Qed.

Lemma startswith_inv (p s : str) :
  startswith p s = true -> exists r, s = p ++ r.
Proof.
  revert s; induction p as [|x p IH]; intros s H.
  - now exists s.
  - destruct s as [|c s]; [discriminate|]. simpl in H.
    apply andb_true_iff in H as [Hx Hp]. apply N.eqb_eq in Hx. subst c.
    destruct (IH _ Hp) as [r ->]. now exists r.
Qed.

Lemma skipn_length_app (p r : str) : skipn (length p) (p ++ r) = r.
Proof. induction p; simpl; auto. Qed.

Lemma cut_inv (sep s a b : str) :
  cut sep s = Some (a, b) -> s = a ++ sep ++ b.
Proof.
  revert a b; induction s as [|c s IH]; intros a b H; simpl in H.
  - destruct (startswith sep []) eqn:E; [|discriminate].
    injection H as <- <-. destruct sep; [reflexivity | discriminate].
  - destruct (startswith sep (c :: s)) eqn:E.
    + injection H as <- <-. destruct (startswith_inv _ _ E) as [r Hr].
      rewrite Hr. now rewrite skipn_length_app.
    + destruct (cut sep s) as [[a' b']|]; [|discriminate].
      injection H as <- <-. simpl. f_equal. now apply IH.
Qed.

Lemma cut_none (sep s : str) : cut sep s = None <-> contains sep s = false.
Proof.
  induction s as [|c s IH]; simpl.
  - destruct (startswith sep []); split; congruence.
  - destruct (startswith sep (c :: s)); simpl; [split; congruence|].
    rewrite <- IH. destruct (cut sep s) as [[a b]|]; split; congruence.
Qed.

Lemma cut_some (sep s : str) :
  contains sep s = true -> exists a b, cut sep s = Some (a, b).
Proof.
  intro H. destruct (cut sep s) as [[a b]|] eqn:E; [now exists a, b|].
  apply cut_none in E. congruence.
Qed.

Lemma contains_app_l (p l r : str) :
  contains p (l ++ p ++ r) = true.
Proof.
  induction l as [|c l IH]; simpl.
  - destruct (p ++ r) eqn:E; simpl.
    + destruct p; [reflexivity | discriminate].
    + rewrite <- E, startswith_app. reflexivity.
  - rewrite IH. apply orb_true_r.
Qed.

Lemma contains_inv (p s : str) :
  contains p s = true -> exists l r, s = l ++ p ++ r.
Proof.
  intro H. destruct (cut_some _ _ H) as (a & b & E).
  exists a, b. now apply cut_inv.
Qed.

Lemma contains_cons (p s : str) (c : char) :
  contains p (c :: s) = startswith p (c :: s) || contains p s.
Proof. reflexivity. Qed.

(** A character foreign to the pattern separates the search. *)
Lemma startswith_sepchar (p u v : str) (x : char) :
  ~ In x p -> startswith p (u ++ x :: v) = startswith p u.
Proof.
  revert u; induction p as [|y p IH]; intros u Hx; [reflexivity|].
  destruct u as [|c u]; simpl.
  - destruct (N.eqb_spec y x); [|reflexivity].
    exfalso. apply Hx. now left.
  - rewrite IH; [reflexivity|]. intro Hin. apply Hx. now right.
Qed.

Lemma contains_sepchar (p a b : str) (x : char) :
  ~ In x p -> contains p (a ++ x :: b) = contains p a || contains p b.
Proof.
  intro Hx. induction a as [|c a IH].
  - destruct p as [|y p]; [reflexivity|]. simpl.
    destruct (N.eqb_spec y x); [|reflexivity].
    exfalso. apply Hx. now left.
  - cbn [app]. rewrite !contains_cons, IH.
    change (c :: a ++ x :: b) with ((c :: a) ++ x :: b).
    rewrite (startswith_sepchar p (c :: a) b x Hx).
    now rewrite orb_assoc.
Qed.

Lemma cut_unfold (sep s : str) :
  cut sep s =
  if startswith sep s then Some ([], skipn (length sep) s)
  else match s with
       | [] => None
       | c :: s' =>
           match cut sep s' with
           | Some (a, b) => Some (c :: a, b)
           | None => None
           end
       end.
Proof. destruct s; reflexivity. Qed.

Lemma cut_here (sep b : str) : cut sep (sep ++ b) = Some ([], b).
Proof. now rewrite cut_unfold, startswith_app, skipn_length_app. Qed.

(** The first occurrence: no match starts before position [length a]. *)
Lemma cut_first (sep a b : str) :
  (forall i, i < length a -> startswith sep (skipn i (a ++ sep ++ b)) = false) ->
  cut sep (a ++ sep ++ b) = Some (a, b).
Proof.
  induction a as [|c a IH]; intro H.
  - exact (cut_here sep b).
  - assert (H0 : startswith sep ((c :: a) ++ sep ++ b) = false)
      by (apply (H 0); simpl; lia).
    rewrite cut_unfold, H0.
    cbn [app]. rewrite IH; [reflexivity|].
    intros i Hi. apply (H (S i)). simpl. lia.
Qed.

Lemma cut_after_sepchar (sep a b : str) (x : char) :
  ~ In x sep -> contains sep a = false ->
  cut sep (a ++ x :: sep ++ b) = Some (a ++ [x], b).
Proof.
  intros Hx Ha.
  assert (Hne : sep <> []).
  { intros ->. destruct a; discriminate. }
  induction a as [|c a IH].
  - cbn [app]. rewrite cut_unfold, cut_here.
    destruct sep as [|y sep]; [congruence|].
    cbn [app startswith]. destruct (N.eqb_spec y x); [|reflexivity].
    exfalso. apply Hx. now left.
  - rewrite contains_cons in Ha. apply orb_false_iff in Ha as [Hs Hc].
    rewrite cut_unfold.
    rewrite (startswith_sepchar sep (c :: a) (sep ++ b) x Hx), Hs.
    cbn [app]. rewrite (IH Hc). reflexivity.
Qed.

Lemma cut_length (sep s a b : str) :
  cut sep s = Some (a, b) -> length s = length a + length sep + length b.
Proof.
  intro H. apply cut_inv in H. subst s. rewrite !length_app. lia.
Qed.

Lemma startswith_app_ext (p u v : str) :
  startswith p u = true -> startswith p (u ++ v) = true.
Proof.
  intro H. destruct (startswith_inv _ _ H) as [r ->].
  rewrite <- app_assoc. apply startswith_app.
Qed.

Lemma cut_before_clean (sep s a b : str) :
  sep <> [] -> cut sep s = Some (a, b) -> contains sep a = false.
Proof.
  intro Hne. revert a; induction s as [|c s IH]; intros a H.
  - simpl in H. destruct sep; [congruence | discriminate].
  - pose proof (cut_inv _ _ _ _ H) as Es. rewrite cut_unfold in H.
    destruct (startswith sep (c :: s)) eqn:E.
    + injection H as <- _. destruct sep; [congruence | reflexivity].
    + destruct (cut sep s) as [[a' b']|]; [|discriminate].
      injection H as <- <-. rewrite contains_cons, (IH a' eq_refl).
      destruct (startswith sep (c :: a')) eqn:E'; [|reflexivity].
      apply startswith_app_ext with (v := sep ++ b') in E'.
      rewrite <- Es in E'. congruence.
Qed.

Lemma split_fuel_nonempty (fuel : nat) (sep s : str) :
  split_fuel fuel sep s <> [].
Proof.
  destruct fuel; simpl; [discriminate|].
  destruct (cut sep s) as [[a b]|]; discriminate.
Qed.

(** The fuel of [split] is enough: the parts, joined by the separator,
    give the text back, and none of them holds the separator. *)
Lemma split_fuel_parts (sep : str) (fuel : nat) (s : str) :
  sep <> [] -> length s <= fuel ->
  join sep (split_fuel fuel sep s) = s /\
  Forall (fun part => contains sep part = false) (split_fuel fuel sep s).
Proof.
  intro Hne. revert s; induction fuel as [|fuel IH]; intros s Hle.
  - destruct s; [|simpl in Hle; lia]. simpl. split; [reflexivity|].
    constructor; [|constructor]. destruct sep; [congruence | reflexivity].
  - cbn [split_fuel]. destruct (cut sep s) as [[a b]|] eqn:E.
    + pose proof (cut_length _ _ _ _ E) as Hl.
      assert (0 < length sep) by (destruct sep; [congruence | simpl; lia]).
      destruct (IH b) as [Hj Hf]; [lia|].
      pose proof (split_fuel_nonempty fuel sep b) as Hn.
      destruct (split_fuel fuel sep b) as [|x l]; [congruence|].
      split.
      * change (join sep (a :: x :: l)) with (a ++ sep ++ join sep (x :: l)).
        rewrite Hj. symmetry. now apply cut_inv.
      * constructor; [exact (cut_before_clean _ _ _ _ Hne E) | exact Hf].
    + split; [reflexivity|]. constructor; [|constructor].
      now apply cut_none.
Qed.

Lemma split_parts (sep s : str) :
  sep <> [] ->
  join sep (split sep s) = s /\
  Forall (fun part => contains sep part = false) (split sep s).
Proof. intro H. apply split_fuel_parts; [exact H | lia]. Qed.

(** More fuel changes nothing. *)
Lemma split_fuel_enough (sep s : str) (fuel : nat) :
  sep <> [] -> length s <= fuel -> split_fuel fuel sep s = split sep s.
Proof.
  intro Hne. unfold split.
  remember (length s) as n eqn:En.
  revert s En fuel. induction n as [n IH] using lt_wf_ind.
  intros s En fuel Hle.
  destruct (cut sep s) as [[a b]|] eqn:E.
  - pose proof (cut_length _ _ _ _ E) as Hl.
    assert (0 < length sep) by (destruct sep; [congruence | simpl; lia]).
    destruct fuel as [|fuel]; [lia|]. destruct n as [|n]; [lia|].
    simpl. rewrite E. f_equal.
    rewrite (IH (length b)) with (fuel := fuel) (s := b) by lia.
    rewrite (IH (length b)) with (fuel := n) (s := b) by lia.
    reflexivity.
  - destruct fuel, n; simpl; rewrite ?E; reflexivity.
Qed.

Lemma contains_mono (p l m r : str) :
  contains p m = true -> contains p (l ++ m ++ r) = true.
Proof.
  intro H. destruct (contains_inv _ _ H) as (l' & r' & ->).
  replace (l ++ (l' ++ p ++ r') ++ r) with ((l ++ l') ++ p ++ (r' ++ r))
    by (now rewrite <- !app_assoc).
  apply contains_app_l.
Qed.

Lemma contains_whole (p : str) : contains p p = true.
Proof.
  pose proof (contains_app_l p [] []) as H. now rewrite app_nil_r in H.
Qed.

Lemma contains_in_left (p a b : str) :
  contains p a = true -> contains p (a ++ b) = true.
Proof. intro H. exact (contains_mono p [] a b H). Qed.

Lemma contains_in_right (p a b : str) :
  contains p b = true -> contains p (a ++ b) = true.
Proof.
  intro H. pose proof (contains_mono p a b [] H) as M.
  now rewrite app_nil_r in M.
Qed.

(** Looks for the piece of a concatenation that holds the pattern. *)
Ltac seek :=
  solve [ apply contains_whole
        | apply contains_in_left; seek
        | apply contains_in_right; seek
        | vm_compute; reflexivity ].

(** *** Trimming *)

Lemma lstrip_spaces (ws s : str) :
  forallb isspace ws = true -> lstrip (ws ++ s) = lstrip s.
Proof.
  induction ws as [|c ws IH]; simpl; intro H; [reflexivity|].
  apply andb_true_iff in H as [Hc Hws]. rewrite Hc. auto.
Qed.

Lemma lstrip_nonspace (c : char) (s : str) :
  isspace c = false -> lstrip (c :: s) = c :: s.
Proof. intro H. simpl. now rewrite H. Qed.

Lemma lstrip_split (s : str) :
  exists ws, s = ws ++ lstrip s /\ forallb isspace ws = true.
Proof.
  induction s as [|c s (ws & E & Hws)]; simpl.
  - now exists [].
  - destruct (isspace c) eqn:Hc.
    + exists (c :: ws). simpl. rewrite Hc, Hws. split; [now f_equal | reflexivity].
    + now exists [].
Qed.

Lemma forallb_rev {A} (f : A -> bool) (l : list A) :
  forallb f (rev l) = forallb f l.
Proof.
  induction l as [|x l IH]; simpl; [reflexivity|].
  rewrite forallb_app, IH. simpl. rewrite andb_true_r. apply andb_comm.
Qed.

Lemma rstrip_spaces (s ws : str) :
  forallb isspace ws = true -> rstrip (s ++ ws) = rstrip s.
Proof.
  intro H. unfold rstrip. rewrite rev_app_distr, lstrip_spaces; [reflexivity|].
  now rewrite forallb_rev.
Qed.

Lemma rstrip_nonspace (s : str) (c : char) :
  isspace c = false -> rstrip (s ++ [c]) = s ++ [c].
Proof.
  intro H. unfold rstrip. rewrite rev_app_distr. simpl. rewrite H.
  simpl. now rewrite rev_involutive.
Qed.

Lemma rstrip_split (s : str) :
  exists ws, s = rstrip s ++ ws /\ forallb isspace ws = true.
Proof.
  destruct (lstrip_split (rev s)) as (ws & E & Hws).
  exists (rev ws). unfold rstrip. rewrite forallb_rev. split; [|exact Hws].
  rewrite <- rev_app_distr, <- E. now rewrite rev_involutive.
Qed.

(** The trimmed text is a segment of the text. *)
Lemma strip_split (s : str) :
  exists l r, s = l ++ strip s ++ r.
Proof.
  destruct (lstrip_split s) as (l & El & _).
  destruct (rstrip_split (lstrip s)) as (r & Er & _).
  exists l, r. unfold strip. now rewrite <- Er.
Qed.

Lemma lstrip_head (s : str) (c : char) (t : str) :
  lstrip s = c :: t -> isspace c = false.
Proof.
  induction s as [|x s IH]; simpl; [discriminate|].
  destruct (isspace x) eqn:Hx; [exact IH|].
  intro H. injection H as -> _. exact Hx.
Qed.

Lemma lstrip_idem (s : str) : lstrip (lstrip s) = lstrip s.
Proof.
  destruct (lstrip s) as [|c t] eqn:E; [reflexivity|].
  apply lstrip_nonspace. exact (lstrip_head _ _ _ E).
Qed.

Lemma lstrip_rstrip (s : str) : lstrip (rstrip (lstrip s)) = rstrip (lstrip s).
Proof.
  destruct (lstrip s) as [|c t] eqn:E; [reflexivity|].
  pose proof (lstrip_head _ _ _ E) as Hc.
  destruct (rstrip_split (c :: t)) as (ws & Ers & Hws).
  destruct (rstrip (c :: t)) as [|c' t'] eqn:Er.
  - reflexivity.
  - simpl in Ers. injection Ers as <- _. now apply lstrip_nonspace.
Qed.

Lemma rstrip_idem (s : str) : rstrip (rstrip s) = rstrip s.
Proof.
  unfold rstrip. now rewrite rev_involutive, lstrip_idem.
Qed.

(** Trimming twice is trimming once. *)
Lemma strip_idem (s : str) : strip (strip s) = strip s.
Proof.
  unfold strip. now rewrite lstrip_rstrip, rstrip_idem.
Qed.

(** *** Lines *)

Lemma splitlines_from_nonempty (cur s : str) :
  cur <> [] \/ s <> [] -> splitlines_from cur s <> [].
Proof.
  revert cur; induction s as [|c s IH]; intros cur H; simpl.
  - destruct cur; [destruct H; congruence | discriminate].
  - destruct (islinebreak c); [discriminate|].
    apply IH. left. discriminate.
Qed.

Lemma splitlines_nonempty (s : str) : s <> [] -> splitlines s <> [].
Proof. intro H. apply splitlines_from_nonempty. now right. Qed.

Lemma splitlines_from_first (cur s first : str) :
  nth_error (splitlines_from cur s) 0 = Some first ->
  exists t, first = rev cur ++ t.
Proof.
  revert cur; induction s as [|c s IH]; intros cur H; simpl in H.
  - destruct cur; [discriminate|]. injection H as <-.
    exists []. now rewrite app_nil_r.
  - destruct (islinebreak c).
    + injection H as <-. exists []. now rewrite app_nil_r.
    + destruct (IH _ H) as [t ->]. exists (c :: t).
      simpl. now rewrite <- app_assoc.
Qed.

(** *** Occurrences *)

Lemma occurrences_from_In (pat s : str) (i k : nat) :
  k <= length s -> startswith pat (skipn k s) = true ->
  In (i + k) (occurrences_from i pat s).
Proof.
  revert i k; induction s as [|c s IH]; intros i k Hk H.
  - simpl in Hk. assert (k = 0) by lia. subst k. simpl in *.
    rewrite H. left. lia.
  - destruct k as [|k].
    + cbn [skipn] in H. cbn [occurrences_from]. rewrite H. left. lia.
    + cbn [occurrences_from]. apply in_or_app. right.
      replace (i + S k) with (S i + k) by lia.
      apply IH; [simpl in Hk; lia | exact H].
Qed.

Lemma occurrences_In (pat s : str) (k : nat) :
  k <= length s -> startswith pat (skipn k s) = true -> In k (occurrences pat s).
Proof. exact (occurrences_from_In pat s 0 k). Qed.

Lemma skipn_app_length (a b : str) (k : nat) :
  skipn (length a + k) (a ++ b) = skipn k b.
Proof. induction a; simpl; auto. Qed.

(** ** The fence stripper *)

Lemma strip_code_block_plain (text : str) :
  contains fence text = false -> _strip_code_block text = strip text.
Proof. intro H. unfold _strip_code_block. now rewrite H. Qed.

Lemma split_fence_second (text a b : str) :
  cut fence text = Some (a, b) ->
  exists rest, split fence text = a :: second_part b :: rest.
Proof.
  intro E. pose proof (cut_length _ _ _ _ E) as Hl.
  change (length fence) with 3 in Hl. unfold split, second_part.
  destruct (length text) as [|[|n]] eqn:En; try lia.
  cbn [split_fuel]. rewrite E.
  destruct (cut fence b) as [[a' b']|]; eexists; reflexivity.
Qed.

Lemma strip_code_block_fenced (text a b : str) :
  cut fence text = Some (a, b) ->
  _strip_code_block text = strip (second_part b).
Proof.
  intro E. unfold _strip_code_block.
  assert (Hc : contains fence text = true).
  { destruct (contains fence text) eqn:C; [reflexivity|].
    apply cut_none in C. congruence. }
  rewrite Hc. destruct (split_fence_second _ _ _ E) as [rest ->].
  reflexivity.
Qed.

(** The result carries no white space at either end. *)
Lemma strip_code_block_stripped (text : str) :
  strip (_strip_code_block text) = _strip_code_block text.
Proof.
  unfold _strip_code_block.
  destruct (contains fence text); [destruct (2 <=? _)|]; apply strip_idem.
Qed.

(** The result is a segment of the text. *)
Lemma strip_code_block_segment (text : str) :
  exists l r, text = l ++ _strip_code_block text ++ r.
Proof.
  destruct (cut fence text) as [[a b]|] eqn:E.
  - rewrite (strip_code_block_fenced _ _ _ E).
    destruct (strip_split (second_part b)) as (l & r & Es).
    apply cut_inv in E. unfold second_part in *.
    destruct (cut fence b) as [[a' b']|] eqn:E'.
    + apply cut_inv in E'. exists (a ++ fence ++ l), (r ++ fence ++ b').
      rewrite E, E'. rewrite Es at 1. now rewrite <- !app_assoc.
    + exists (a ++ fence ++ l), r.
      rewrite E. rewrite Es at 1. now rewrite <- !app_assoc.
  - apply cut_none in E. rewrite (strip_code_block_plain _ E).
    apply strip_split.
Qed.

(** Content between the only two fences of a text. *)
Lemma strip_code_block_one_pair (pre content post : str) :
  occurrences fence (pre ++ fence ++ content ++ fence ++ post)
  = [length pre; length pre + 3 + length content] ->
  _strip_code_block (pre ++ fence ++ content ++ fence ++ post) = strip content.
Proof.
  intro H. set (text := pre ++ fence ++ content ++ fence ++ post) in *.
  assert (Hocc : forall k, k <= length text ->
            startswith fence (skipn k text) = true ->
            k = length pre \/ k = length pre + 3 + length content).
  { intros k Hk Hs. pose proof (occurrences_In _ _ _ Hk Hs) as Hin.
    rewrite H in Hin. simpl in Hin. intuition lia. }
  assert (Hlen : length text = length pre + 3 + length content + 3 + length post).
  { unfold text. rewrite !length_app. change (length fence) with 3. lia. }
  assert (E1 : cut fence text = Some (pre, content ++ fence ++ post)).
  { apply cut_first. intros i Hi.
    destruct (startswith fence (skipn i _)) eqn:Hs; [|reflexivity].
    apply Hocc in Hs; fold text; lia. }
  rewrite (strip_code_block_fenced _ _ _ E1). unfold second_part.
  rewrite cut_first; [reflexivity|].
  intros i Hi.
  destruct (startswith fence (skipn i _)) eqn:Hs; [|reflexivity].
  assert (Hk : skipn (length pre + (3 + i)) text
               = skipn i (content ++ fence ++ post)).
  { unfold text. rewrite skipn_app_length.
    change 3 with (length fence). now rewrite skipn_app_length. }
  rewrite <- Hk in Hs. apply Hocc in Hs; lia.
Qed.

(** Content wrapped in a pair of fences: the closing fence is the first
    one after the opening fence when the content holds no fence and its
    last character is not a backtick. *)
Lemma strip_code_block_wrapped (content : str) :
  contains fence content = false ->
  endswith content (lit "`") = false ->
  _strip_code_block (fence ++ content ++ fence) = strip content.
Proof.
  intros Hc He.
  rewrite (strip_code_block_fenced _ _ _ (cut_here fence (content ++ fence))).
  unfold second_part.
  destruct (rev content) as [|x ra] eqn:Er;
    apply (f_equal (@rev char)) in Er; rewrite rev_involutive in Er;
    cbn [rev] in Er; subst content; [reflexivity|].
  assert (Hx : ~ In x fence).
  { unfold endswith in He. rewrite rev_app_distr, rev_involutive in He.
    change (rev (lit "`")) with [96%N] in He.
    cbn [startswith rev app] in He.
    destruct (N.eqb_spec 96 x) as [E|E]; [discriminate|].
    intros [H|[H|[H|[]]]]; now apply E. }
  rewrite contains_sepchar in Hc by exact Hx.
  apply orb_false_iff in Hc. destruct Hc as [Ha _].
  pose proof (cut_after_sepchar fence (rev ra) [] x Hx Ha) as E.
  rewrite app_nil_r in E. rewrite <- app_assoc. cbn [app].
  now rewrite E.
Qed.

(** C7 (amended). On text without a triple backtick the fence stripper only
    trims; on content wrapped in a pair of fences, where the content holds
    no triple backtick and does not end with a backtick, it returns the
    trimmed content.  The content may be empty and may start with a
    backtick. *)
Theorem strip_code_block_fences (text content : str) :
  (contains fence text = false -> _strip_code_block text = strip text) /\
  (contains fence content = false ->
   endswith content (lit "`") = false ->
   _strip_code_block (fence ++ content ++ fence) = strip content).
Proof.
  split.
  - apply strip_code_block_plain.
  - apply strip_code_block_wrapped.
Qed.

Lemma strip_code_block_fences_witness :
  _strip_code_block (lit "  plain text ") = lit "plain text" /\
  _strip_code_block (lit "```
<h1>Hi</h1>
```") = lit "<h1>Hi</h1>".
Proof.
  split.
  - apply (proj1 (strip_code_block_fences (lit "  plain text ") [])).
    reflexivity.
  - apply (proj2 (strip_code_block_fences [] (lit "
<h1>Hi</h1>
"))); reflexivity.
Defined.

(** C7, as stated, fails: the content ["a`"] holds no triple backtick, yet
    wrapped in a pair of fences its last backtick is taken for the start
    of the closing fence and the result is ["a"], not the content. *)
Lemma strip_code_block_backtick_tail :
  let content := lit "a`" in
  contains fence content = false /\
  strip content = content /\
  _strip_code_block (fence ++ content ++ fence) = lit "a".
Proof. vm_compute. repeat split. Qed.

(** ** The quality gate *)

Lemma gate_short_circuit (lines : list str) (c : str) :
  length (strip c) <= 50 -> gate_on lines c = inr false.
Proof.
  intro H. unfold gate_on.
  destruct (Nat.ltb_spec 50 (length (strip c))); [lia | reflexivity].
Qed.

Lemma long_has_line (c : str) : 50 < length (strip c) -> splitlines c <> [].
Proof.
  intro H. apply splitlines_nonempty. intros ->. simpl in H. lia.
Qed.

Lemma readme_gate_long (c : str) :
  50 < length (strip c) ->
  exists first,
    nth_error (splitlines c) 0 = Some first /\
    readme_gate c = inr (contains (lit "# ") first || contains (lit "Overview") c).
Proof.
  intro H. pose proof (long_has_line c H) as Hl.
  unfold readme_gate, gate_on.
  destruct (Nat.ltb_spec 50 (length (strip c))); [|lia].
  destruct (splitlines c) as [|first rest]; [congruence|].
  exists first. split; reflexivity.
Qed.

Lemma first_line_heading (c rest : str) :
  c = lit "# " ++ rest ->
  exists first, nth_error (splitlines c) 0 = Some first /\
                contains (lit "# ") first = true.
Proof.
  intros ->. unfold splitlines.
  change (splitlines_from [] (lit "# " ++ rest))
    with (splitlines_from (rev (lit "# ")) rest).
  destruct (splitlines_from (rev (lit "# ")) rest) as [|first l] eqn:E.
  - exfalso. revert E. apply splitlines_from_nonempty. left. discriminate.
  - exists first. split; [reflexivity|].
    destruct (splitlines_from_first (rev (lit "# ")) rest first) as [t ->].
    + now rewrite E.
    + rewrite rev_involutive. exact (contains_app_l (lit "# ") [] t).
Qed.

(** C4 (amended). The gate accepts a document section exactly when its
    fence-stripped text, trimmed, is longer than 50 characters and the first
    line of the fence-stripped text contains ["# "] or the fence-stripped
    text contains ["Overview"].  A section whose fence-stripped text has 51
    characters and starts with ["# "] is accepted; a section without
    ["Overview"] whose fence-stripped text has no ["# "] in its first line
    is rejected, whatever its length. *)
Theorem quality_gate_spec (document : str) :
  let c := _strip_code_block document in
  (readme_gate c = inr true <->
   50 < length (strip c) /\
   ((exists first, nth_error (splitlines c) 0 = Some first /\
                   contains (lit "# ") first = true) \/
    contains (lit "Overview") c = true)) /\
  (length (strip c) = 51 -> startswith (lit "# ") c = true ->
   readme_gate c = inr true) /\
  ((forall first, nth_error (splitlines c) 0 = Some first ->
                  contains (lit "# ") first = false) ->
   contains (lit "Overview") document = false ->
   readme_gate c = inr false).
Proof.
  intro c. split; [split|split].
  - intro H. destruct (Nat.ltb_spec 50 (length (strip c))) as [Hlt|Hle].
    + split; [exact Hlt|].
      destruct (readme_gate_long c Hlt) as (first & Hf & Hg).
      rewrite Hg in H. injection H as H.
      apply orb_true_iff in H as [H|H]; [left; now exists first | now right].
    + unfold readme_gate in H. rewrite gate_short_circuit in H by exact Hle.
      discriminate.
  - intros [Hlt H].
    destruct (readme_gate_long c Hlt) as (first & Hf & Hg). rewrite Hg.
    destruct H as [(first' & Hf' & Hc)|H].
    + rewrite Hf in Hf'. injection Hf' as ->. now rewrite Hc.
    + rewrite H. now rewrite orb_true_r.
  - intros Hlen Hs.
    assert (Hlt : 50 < length (strip c)) by lia.
    destruct (readme_gate_long c Hlt) as (first & Hf & Hg). rewrite Hg.
    destruct (startswith_inv _ _ Hs) as [rest Hr].
    destruct (first_line_heading c rest Hr) as (first' & Hf' & Hc).
    rewrite Hf in Hf'. injection Hf' as ->. now rewrite Hc.
  - intros Hfirst Hov.
    destruct (Nat.ltb_spec 50 (length (strip c))) as [Hlt|Hle].
    + destruct (readme_gate_long c Hlt) as (first & Hf & Hg). rewrite Hg.
      rewrite (Hfirst _ Hf).
      destruct (contains (lit "Overview") c) eqn:Hc; [|reflexivity].
      destruct (strip_code_block_segment document) as (l & r & E).
      rewrite E, contains_mono in Hov; [discriminate | exact Hc].
    + apply gate_short_circuit. exact Hle.
Qed.

Lemma quality_gate_spec_witness :
  readme_gate (_strip_code_block (lit "# " ++ repeat 0x78%N 49)) = inr true /\
  readme_gate (_strip_code_block (repeat 0x78%N 200)) = inr false.
Proof.
  split.
  - apply (proj1 (proj2 (quality_gate_spec (lit "# " ++ repeat 0x78%N 49))));
      reflexivity.
  - apply (proj2 (proj2 (quality_gate_spec (repeat 0x78%N 200)))).
    + intros first H. vm_compute in H. injection H as <-. reflexivity.
    + reflexivity.
Defined.

(** C4, as stated, fails: a section of 51 characters that starts with
    ["# "] and ends with a newline is rejected (50 characters are left after
    trimming), and a section of 200 characters whose own first line is
    empty, without ["Overview"], is accepted. *)
Lemma quality_gate_examples_fail :
  let d51 := lit "# " ++ repeat 0x78%N 48 ++ [nl] in
  let d200 := [nl] ++ lit "# " ++ repeat 0x78%N 197 in
  (length d51 = 51 /\ startswith (lit "# ") d51 = true /\
   readme_gate (_strip_code_block d51) = inr false) /\
  (length d200 = 200 /\
   nth_error (splitlines d200) 0 = Some [] /\
   contains (lit "Overview") d200 = false /\
   readme_gate (_strip_code_block d200) = inr true).
Proof. vm_compute. repeat split. Qed.

(** C10. The gate never fails with an index error: when the trimmed
    candidate has at most 50 characters the answer is [False] whatever the
    list of lines is (the first line is not looked up); a candidate with
    more than 50 characters has a first line; so the gate yields a truth
    value on every document section, the empty and the blank ones
    included. *)
Theorem readme_gate_total (document : str) :
  (forall lines c, length (strip c) <= 50 -> gate_on lines c = inr false) /\
  (forall c, 50 < length (strip c) -> splitlines c <> []) /\
  (exists b, readme_gate (_strip_code_block document) = inr b) /\
  readme_gate (_strip_code_block []) = inr false /\
  (forallb isspace document = true ->
   readme_gate (_strip_code_block document) = inr false).
Proof.
  split; [exact gate_short_circuit|]. split; [exact long_has_line|].
  split; [|split].
  - set (c := _strip_code_block document).
    destruct (Nat.ltb_spec 50 (length (strip c))) as [Hlt|Hle].
    + destruct (readme_gate_long c Hlt) as (first & _ & Hg). eauto.
    + exists false. now apply gate_short_circuit.
  - reflexivity.
  - intro H. apply gate_short_circuit.
    rewrite strip_code_block_stripped.
    destruct (strip_code_block_segment document) as (l & r & E).
    rewrite E in H. rewrite !forallb_app in H.
    apply andb_true_iff in H as [_ H]. apply andb_true_iff in H as [H _].
    destruct (_strip_code_block document) as [|x t] eqn:Ec; [simpl; lia|].
    exfalso.
    assert (Hs : strip (x :: t) = x :: t)
      by (rewrite <- Ec; apply strip_code_block_stripped).
    unfold strip in Hs. simpl in H. apply andb_true_iff in H as [Hx _].
    assert (Hl : lstrip (rstrip (lstrip (x :: t))) = rstrip (lstrip (x :: t)))
      by apply lstrip_rstrip.
    rewrite Hs in Hl. simpl in Hl. rewrite Hx in Hl.
    pose proof (f_equal (@length char) Hl) as Hlen. simpl in Hlen.
    destruct (lstrip_split t) as (ws & Et & _).
    pose proof (f_equal (@length char) Et) as Hlen'.
    rewrite length_app in Hlen'. lia.
Qed.

Lemma readme_gate_total_witness :
  readme_gate (_strip_code_block (lit "
   ")) = inr false.
Proof.
  apply (proj2 (proj2 (proj2 (proj2 (readme_gate_total (lit "
   ")))))).
  reflexivity.
Defined.

(** ** The final parse *)


Lemma cut_contains (sep s a b : str) :
  cut sep s = Some (a, b) -> contains sep s = true.
Proof.
  intro E. destruct (contains sep s) eqn:C; [reflexivity|].
  apply cut_none in C. congruence.
Qed.

Lemma fallback_readme_nonempty (brief : str) (checks : option (list str))
    (meta : option str) (round_num : Z) :
  generate_readme_fallback brief checks meta round_num <> [].
Proof. discriminate. Qed.

(** The final parse never fails, and yields the two keys. *)
Lemma parse_final_marker (brief : str) (checks : option (list str))
    (meta : str) (round_num : Z) (response code readme : str) :
  cut marker response = Some (code, readme) ->
  parse_final brief checks meta round_num response =
  inr [(index_html, _strip_code_block code);
       (readme_md,
        if length (strip (_strip_code_block readme)) <? 20
        then generate_readme_fallback brief checks (Some meta) round_num
        else _strip_code_block readme)].
Proof.
  intro E. unfold parse_final, split1.
  rewrite (cut_contains _ _ _ _ E), E. cbn [unpack2 rbind].
  destruct (length (strip (_strip_code_block readme)) <? 20); reflexivity.
Qed.

Lemma parse_final_no_marker (brief : str) (checks : option (list str))
    (meta : str) (round_num : Z) (response : str) :
  contains marker response = false ->
  parse_final brief checks meta round_num response =
  inr [(index_html, _strip_code_block response);
       (readme_md, generate_readme_fallback brief checks (Some meta) round_num)].
Proof. intro E. unfold parse_final. now rewrite E. Qed.

Lemma parse_final_total (brief : str) (checks : option (list str))
    (meta : str) (round_num : Z) (response : str) :
  exists code readme,
    parse_final brief checks meta round_num response
    = inr [(index_html, code); (readme_md, readme)] /\ readme <> [].
Proof.
  destruct (cut marker response) as [[code readme]|] eqn:E.
  - rewrite (parse_final_marker _ _ _ _ _ _ _ E).
    eexists _, _. split; [reflexivity|].
    destruct (Nat.ltb_spec (length (strip (_strip_code_block readme))) 20) as [H|H].
    + apply fallback_readme_nonempty.
    + intro E0. rewrite E0 in H. simpl in H. lia.
  - apply cut_none in E. rewrite (parse_final_no_marker _ _ _ _ _ E).
    eexists _, _. split; [reflexivity | apply fallback_readme_nonempty].
Qed.

(** C6. When the response holds the marker and the fence-stripped document
    section, trimmed, has fewer than 20 characters, the final parse stores a
    fresh fallback README under ["README.md"], and ["index.html"] is the
    fence-stripped code section: the same value as for any response with
    that code section, whatever its document section. *)
Theorem final_parse_replaces_readme_only (brief : str)
    (checks : option (list str)) (meta : str) (round_num : Z)
    (response code readme : str) :
  cut marker response = Some (code, readme) ->
  length (strip (_strip_code_block readme)) < 20 ->
  exists fs,
    parse_final brief checks meta round_num response = inr fs /\
    lookup readme_md fs
    = Some (generate_readme_fallback brief checks (Some meta) round_num) /\
    lookup index_html fs = Some (_strip_code_block code) /\
    forall response' readme',
      cut marker response' = Some (code, readme') ->
      exists fs',
        parse_final brief checks meta round_num response' = inr fs' /\
        lookup index_html fs' = lookup index_html fs /\
        (20 <= length (strip (_strip_code_block readme')) ->
         lookup readme_md fs' = Some (_strip_code_block readme')).
Proof.
  intros E Hlt. rewrite (parse_final_marker _ _ _ _ _ _ _ E).
  eexists. split; [reflexivity|].
  apply Nat.ltb_lt in Hlt. rewrite Hlt.
  split; [reflexivity|]. split; [reflexivity|].
  intros response' readme' E'. rewrite (parse_final_marker _ _ _ _ _ _ _ E').
  eexists. split; [reflexivity|]. split; [reflexivity|].
  intro Hge. apply Nat.ltb_ge in Hge. now rewrite Hge.
Qed.

Lemma final_parse_replaces_readme_only_witness :
  exists fs,
    parse_final (lit "todo app") None [] 1
      (lit "<p>hi</p>---README.md---short") = inr fs /\
    lookup readme_md fs
    = Some (generate_readme_fallback (lit "todo app") None (Some []) 1) /\
    lookup index_html fs = Some (lit "<p>hi</p>").
Proof.
  destruct (final_parse_replaces_readme_only (lit "todo app") None [] 1
              (lit "<p>hi</p>---README.md---short")
              (lit "<p>hi</p>") (lit "short"))
    as (fs & H1 & H2 & H3 & _).
  - reflexivity.
  - vm_compute. lia.
  - exists fs. rewrite H3. repeat split; assumption.
Defined.

(** ** Text extraction *)

Lemma foldM_content (es : list json) (acc : str) :
  forallb entry_ok es = true ->
  foldM content_step acc es = inr (acc ++ concat (map entry_text es)).
Proof.
  revert acc; induction es as [|c es IH]; intros acc H; simpl.
  - now rewrite app_nil_r.
  - simpl in H. apply andb_true_iff in H as [Hc Hes].
    assert (Hstep : content_step acc c = inr (acc ++ entry_text c)).
    { destruct c as [| | | | |l|kv]; simpl in *; rewrite ?app_nil_r; try reflexivity.
      destruct (dict_get (lit "text") kv) as [[]|];
        try discriminate; rewrite ?app_nil_r; reflexivity. }
    rewrite Hstep. simpl. rewrite IH by assumption. now rewrite app_assoc.
Qed.

Lemma foldM_output (items : list json) (acc : str) :
  forallb item_ok items = true ->
  foldM output_step acc items = inr (acc ++ concat (map item_text items)).
Proof.
  revert acc; induction items as [|item items IH]; intros acc H; simpl.
  - now rewrite app_nil_r.
  - simpl in H. apply andb_true_iff in H as [Hi His].
    assert (Hstep : output_step acc item = inr (acc ++ item_text item)).
    { destruct item as [| | | | |l|kv]; try discriminate.
      unfold output_step, item_text, item_entries. simpl in Hi.
      destruct (dict_get (lit "content") kv) as [[]|]; try discriminate; simpl.
      - now apply foldM_content.
      - now rewrite app_nil_r. }
    rewrite Hstep. simpl. rewrite IH by assumption. now rewrite app_assoc.
Qed.

Lemma foldM_choices (chs : list json) (acc : str) :
  forallb choice_ok chs = true ->
  foldM choices_step acc chs = inr (acc ++ concat (map choice_text chs)).
Proof.
  revert acc; induction chs as [|ch chs IH]; intros acc H; simpl.
  - now rewrite app_nil_r.
  - simpl in H. apply andb_true_iff in H as [Hc Hcs].
    assert (Hstep : choices_step acc ch = inr (acc ++ choice_text ch)).
    { destruct ch as [| | | | |l|kv]; try discriminate.
      unfold choices_step, choice_text, message_content. simpl in Hc.
      destruct (dict_get (lit "message") kv) as [[| | | | | |msg]|];
        try discriminate; simpl; rewrite ?app_nil_r; try reflexivity.
      destruct (get_default (dict_get (lit "content") msg) (JStr [])) as [| | | |s| |];
        simpl in *; rewrite ?app_nil_r; try reflexivity;
        try (apply negb_true_iff in Hc; rewrite Hc; reflexivity).
      destruct s; simpl; rewrite ?app_nil_r; reflexivity. }
    rewrite Hstep. simpl. rewrite IH by assumption. now rewrite app_assoc.
Qed.

(** C9 (amended). On a reply that is a JSON object the first applicable of
    three strategies is used: the value under ["output_text"] when it is
    true; else, when the key ["output"] is present, the concatenation in
    order over the items of the strings found in their content entries;
    else, when the key ["choices"] is present, the concatenation in order
    of the message contents; with none of the three the text is empty. *)
Theorem extract_text_strategies (kv : list (str * json)) :
  (forall v, dict_get (lit "output_text") kv = Some v -> truthy v = true ->
     extract_text (JObj kv) = inr v) /\
  (truthy (get_default (dict_get (lit "output_text") kv) JNull) = false ->
   (forall items,
      dict_get (lit "output") kv = Some (JArr items) ->
      forallb item_ok items = true ->
      extract_text (JObj kv) = inr (JStr (concat (map item_text items)))) /\
   (dict_get (lit "output") kv = None ->
    (forall chs,
       dict_get (lit "choices") kv = Some (JArr chs) ->
       forallb choice_ok chs = true ->
       extract_text (JObj kv) = inr (JStr (concat (map choice_text chs)))) /\
    (dict_get (lit "choices") kv = None ->
     extract_text (JObj kv) = inr (JStr [])))).
Proof.
  split.
  - intros v Hv Ht. unfold extract_text. rewrite Hv. simpl. now rewrite Ht.
  - intro Hf. split.
    + intros items Ho Hok. unfold extract_text, dict_has.
      rewrite Hf, Ho. simpl. now rewrite foldM_output.
    + intro Hno. split.
      * intros chs Hc Hok. unfold extract_text, dict_has.
        rewrite Hf, Hno, Hc. simpl. now rewrite foldM_choices.
      * intro Hnc. unfold extract_text, dict_has. now rewrite Hf, Hno, Hnc.
Qed.

Lemma extract_text_strategies_witness :
  let items :=
    [JObj [(lit "content",
            JArr [JObj [(lit "text", JStr (lit "ab"))]; JStr (lit "cd")])];
     JObj [(lit "id", JInt 7)]] in
  extract_text
    (JObj [(lit "output_text", JStr []);
           (lit "output", JArr items);
           (lit "choices",
            JArr [JObj [(lit "message",
                         JObj [(lit "content", JStr (lit "zz"))])]])])
  = inr (JStr (lit "abcd")).
Proof.
  intro items.
  match goal with
  | |- extract_text (JObj ?kv) = _ =>
      exact (proj1 (proj2 (extract_text_strategies kv) eq_refl)
               items eq_refl eq_refl)
  end.
Defined.

(** C9, as stated, fails: a reply whose ["output"] is [null] yields no text
    in any of the three shapes, and the extraction raises [TypeError]; a
    reply that is not an object raises [AttributeError]. *)
Lemma extract_text_raises :
  extract_text (JObj [(lit "output", JNull)]) = inl TypeError /\
  extract_text (JArr []) = inl AttributeError.
Proof. split; reflexivity. Qed.

(** ** The retry loop *)

Section Runs.

Variable remote : nat -> str -> reply.
Variable decode_attachments : list attachment -> list saved_attachment.
Variable summarize_attachment_meta : list saved_attachment -> str.
Variable repr_checks : list str -> str.

Lemma attempt_loop_cons (prompt : str) (attempt : nat) (rest : list nat)
    (t : trace) :
  attempt_loop remote prompt (attempt :: rest) t =
  match attempt_verdict (remote (length (posts t)) prompt) with
  | inl e => (inl e, t ++ [Post prompt])
  | inr (Some s) => (inr (Some s), t ++ [Post prompt])
  | inr None =>
      if attempt <? max_attempts
      then attempt_loop remote prompt rest ((t ++ [Post prompt]) ++ [Sleep 1])
      else attempt_loop remote prompt rest (t ++ [Post prompt])
  end.
Proof.
  cbn [attempt_loop].
  unfold bind at 1. unfold ai_pipe_generate, bind at 1, http_post.
  unfold attempt_verdict, reply_text.
  destruct (remote (length (posts t)) prompt) as [e| |data];
    try reflexivity.
  unfold lift at 1. cbn [rbind].
  destruct (extract_text data) as [e|text]; [reflexivity|].
  cbn [rbind]. unfold examine, bind at 1, lift at 1.
  destruct (if truthy text then py_contains marker text else inr false)
    as [e|[|]]; cbn [rbind]; try reflexivity.
  - unfold bind at 1, lift at 1.
    destruct (as_str text) as [e|s]; cbn [rbind]; [reflexivity|].
    unfold bind at 1, lift at 1.
    destruct (unpack2 (split1 marker s)) as [e|[code readme]];
      cbn [rbind]; [reflexivity|].
    unfold bind at 1, lift at 1.
    destruct (readme_gate (_strip_code_block readme)) as [e|[|]];
      cbn [rbind]; try reflexivity.
    destruct (attempt <? max_attempts); reflexivity.
  - destruct (attempt <? max_attempts); reflexivity.
Qed.

Variable brief : str.
Variable atts : option (list attachment).
Variable checks : option (list str).
Variable round_num : Z.
Variable prev_readme : option str.

Let saved := decode_attachments (or_empty atts).
Let meta := summarize_attachment_meta saved.
Let prompt := base_prompt repr_checks brief meta checks round_num prev_readme.
Let outcome :=
  run (generate_app_code remote decode_attachments summarize_attachment_meta
         repr_checks brief atts checks round_num prev_readme).

(** Every run is one of three: the first attempt ends it (by raising or by
    being accepted), or a pause and a second attempt follow. *)
Lemma run_generate :
  outcome =
  match attempt_verdict (remote 0 prompt) with
  | inl e => (inl e, [Post prompt])
  | inr (Some s) =>
      (finish saved brief checks meta round_num (Some s), [Post prompt])
  | inr None =>
      match attempt_verdict (remote 1 prompt) with
      | inl e => (inl e, [Post prompt; Sleep 1; Post prompt])
      | inr o =>
          (finish saved brief checks meta round_num o,
           [Post prompt; Sleep 1; Post prompt])
      end
  end.
Proof.
  unfold outcome, run, generate_app_code.
  fold saved. fold meta. fold prompt.
  unfold bind at 1. change (seq 1 max_attempts) with [1; 2].
  rewrite attempt_loop_cons. change (length (posts [])) with 0.
  assert (Hfin : forall o t,
    (fs <- lift (parse_final brief checks meta round_num
                   (if nonempty (or_empty o) then or_empty o
                    else fallback_response brief checks meta round_num)) ;;
     ret {| files := fs; attachments := saved |})%py t
    = (finish saved brief checks meta round_num o, t)).
  { intros o t. unfold finish, bind, lift, ret.
    destruct (parse_final _ _ _ _ _); reflexivity. }
  destruct (attempt_verdict (remote 0 prompt)) as [e|[s|]]; cbn [app].
  - reflexivity.
  - apply Hfin.
  - change (1 <? max_attempts) with true. cbv iota.
    rewrite attempt_loop_cons.
    change (length (posts [Post prompt; Sleep 1])) with 1.
    destruct (attempt_verdict (remote 1 prompt)) as [e|[s|]]; cbn [app].
    + reflexivity.
    + apply Hfin.
    + change (2 <? max_attempts) with false. cbv iota.
      cbn [attempt_loop ret]. apply Hfin.
Qed.

Lemma finish_total (o : option str) :
  exists code readme,
    finish saved brief checks meta round_num o
    = inr {| files := [(index_html, code); (readme_md, readme)];
             attachments := saved |} /\
    readme <> [].
Proof.
  unfold finish. cbv zeta.
  match goal with
  | |- context [parse_final _ _ _ _ ?r] =>
      destruct (parse_final_total brief checks meta round_num r)
        as (code & readme & E & Hne)
  end.
  exists code, readme. now rewrite E.
Qed.

Lemma examine_accept (s code readme : str) :
  cut marker s = Some (code, readme) ->
  readme_gate (_strip_code_block readme) = inr true ->
  examine (JStr s) = inr (Some s).
Proof.
  intros E G. unfold examine. cbn [truthy py_contains as_str].
  assert (Hs : nonempty s = true).
  { apply cut_inv in E. subst s. destruct code; reflexivity. }
  rewrite Hs, (cut_contains _ _ _ _ E). cbn [rbind].
  unfold split1. rewrite E. cbn [unpack2 rbind]. now rewrite G.
Qed.

Lemma examine_no_marker (s : str) :
  contains marker s = false -> examine (JStr s) = inr None.
Proof.
  intro H. unfold examine. cbn [truthy py_contains]. rewrite H.
  destruct (nonempty s); reflexivity.
Qed.

(** C5. One call of [generate_app_code] posts to the remote service once,
    or once more after a pause of one second, never more than
    [max_attempts = 2] times, one call after the other; when the first
    reply holds the marker and passes the gate there is no second call, and
    a second call is made only after a first one that was not accepted. *)
Theorem at_most_two_attempts :
  (snd outcome = [Post prompt] \/
   snd outcome = [Post prompt; Sleep 1; Post prompt]) /\
  length (posts (snd outcome)) <= max_attempts /\
  (forall s code readme,
     reply_text (remote 0 prompt) = inr (JStr s) ->
     cut marker s = Some (code, readme) ->
     readme_gate (_strip_code_block readme) = inr true ->
     snd outcome = [Post prompt]) /\
  (length (posts (snd outcome)) = 2 ->
   attempt_verdict (remote 0 prompt) = inr None).
Proof.
  rewrite run_generate. split; [|split; [|split]].
  - destruct (attempt_verdict (remote 0 prompt)) as [e|[s|]]; auto.
    destruct (attempt_verdict (remote 1 prompt)); auto.
  - destruct (attempt_verdict (remote 0 prompt)) as [e|[s|]];
      [| |destruct (attempt_verdict (remote 1 prompt))];
      cbn; unfold max_attempts; lia.
  - intros s code readme Ht Ec Hg. unfold attempt_verdict.
    rewrite Ht. cbn [rbind]. now rewrite (examine_accept _ _ _ Ec Hg).
  - destruct (attempt_verdict (remote 0 prompt)) as [e|[s|]];
      cbn; intro H; try discriminate. reflexivity.
Qed.

(** C1 (amended). A transport failure is not caught: on the first attempt,
    or on the second one after a first reply that was not accepted, it
    comes out of [generate_app_code] as the exception raised, the attempt
    being the last one made.  When no attempt raises, the caller receives a
    result with both file keys and the decoded attachments. *)
Theorem transport_failure_propagates :
  (forall e, remote 0 prompt = Failed e ->
     outcome = (inl (RequestException e), [Post prompt])) /\
  (forall e, attempt_verdict (remote 0 prompt) = inr None ->
     remote 1 prompt = Failed e ->
     outcome = (inl (RequestException e), [Post prompt; Sleep 1; Post prompt])) /\
  ((forall k e, k < max_attempts -> attempt_verdict (remote k prompt) <> inl e) ->
   exists code readme,
     fst outcome = inr {| files := [(index_html, code); (readme_md, readme)];
                          attachments := saved |}).
Proof.
  rewrite run_generate. split; [|split].
  - intros e H. unfold attempt_verdict. now rewrite H.
  - intros e H0 H1. rewrite H0. unfold attempt_verdict. now rewrite H1.
  - intro H.
    destruct (attempt_verdict (remote 0 prompt)) as [e|o0] eqn:E0.
    { exfalso. apply (H 0 e); [unfold max_attempts; lia | exact E0]. }
    destruct o0 as [s|].
    + destruct (finish_total (Some s)) as (code & readme & -> & _).
      now exists code, readme.
    + destruct (attempt_verdict (remote 1 prompt)) as [e|o1] eqn:E1.
      { exfalso. apply (H 1 e); [unfold max_attempts; lia | exact E1]. }
      destruct (finish_total o1) as (code & readme & -> & _).
      now exists code, readme.
Qed.

(** C2 (amended). Whenever [generate_app_code] returns, the result holds a
    string under ["index.html"] and a non-empty string under
    ["README.md"]. *)
Theorem returned_readme_nonempty (g : generation_result) :
  fst outcome = inr g ->
  exists code readme,
    lookup index_html (files g) = Some code /\
    lookup readme_md (files g) = Some readme /\
    readme <> [].
Proof.
  rewrite run_generate. intro H.
  assert (Hfin : forall o, finish saved brief checks meta round_num o = inr g ->
            exists code readme,
              lookup index_html (files g) = Some code /\
              lookup readme_md (files g) = Some readme /\ readme <> []).
  { intros o Ho. destruct (finish_total o) as (code & readme & E & Hne).
    rewrite E in Ho. injection Ho as <-. now exists code, readme. }
  destruct (attempt_verdict (remote 0 prompt)) as [e|[s|]];
    [discriminate | now apply (Hfin (Some s)) |].
  destruct (attempt_verdict (remote 1 prompt)) as [e|o];
    [discriminate | now apply (Hfin o)].
Qed.

Lemma context_note_off (r : Z) (prev : option str) :
  r <> 2%Z \/ nonempty (or_empty prev) = false -> context_note r prev = [].
Proof.
  intros [H|H]; unfold context_note.
  - apply Z.eqb_neq in H. now rewrite H.
  - rewrite H. now rewrite andb_false_r.
Qed.

End Runs.

(** ** Templates: searching and trimming through a concatenation *)

Lemma outside_not_in (p : str) (x : char) :
  outside p x = true -> ~ In x p.
Proof.
  unfold outside. intros H Hin. apply negb_true_iff in H.
  assert (existsb (N.eqb x) p = true); [|congruence].
  apply existsb_exists. exists x. split; [exact Hin | apply N.eqb_refl].
Qed.

Lemma clean_after (p a b : str) :
  ends_outside p a = true ->
  contains p a = false -> contains p b = false ->
  contains p (a ++ b) = false.
Proof.
  unfold ends_outside. intros He Ha Hb.
  destruct (rev a) as [|x ra] eqn:Er; [discriminate|].
  assert (Ea : a = rev ra ++ [x]).
  { rewrite <- (rev_involutive a), Er. reflexivity. }
  apply outside_not_in in He. subst a.
  rewrite <- app_assoc. cbn [app].
  rewrite (contains_sepchar p (rev ra) b x He), Hb.
  rewrite (contains_sepchar p (rev ra) [] x He) in Ha.
  apply orb_false_iff in Ha as [-> _]. reflexivity.
Qed.

Lemma clean_before (p a b : str) :
  starts_outside p b = true ->
  contains p a = false -> contains p b = false ->
  contains p (a ++ b) = false.
Proof.
  unfold starts_outside. intros Hs Ha Hb.
  destruct b as [|x b]; [discriminate|].
  apply outside_not_in in Hs.
  rewrite (contains_sepchar p a b x Hs), Ha.
  change (x :: b) with ([] ++ x :: b) in Hb.
  rewrite (contains_sepchar p [] b x Hs) in Hb.
  apply orb_false_iff in Hb as [_ ->]. reflexivity.
Qed.

(** Splits the search for a pattern along a template whose fixed pieces
    border the variable ones with characters foreign to the pattern. *)
Ltac clean :=
  repeat first
    [ assumption
    | apply clean_after; [reflexivity | vm_compute; reflexivity | ]
    | apply clean_before; [reflexivity | | ]
    | vm_compute; reflexivity ].

Lemma contains_head_in (x : char) (p s : str) :
  contains (x :: p) s = true -> In x s.
Proof.
  induction s as [|c s IH]; [discriminate|].
  rewrite contains_cons. intro H. apply orb_true_iff in H as [H|H].
  - simpl in H. apply andb_true_iff in H as [H _].
    apply N.eqb_eq in H. now left.
  - right. now apply IH.
Qed.

Lemma uint_chars (d : Decimal.uint) (c : char) :
  In c (lit (NilEmpty.string_of_uint d)) -> (48 <= c <= 57)%N.
Proof.
  induction d; cbn [NilEmpty.string_of_uint]; intro H;
    [contradiction | ..];
    (destruct H as [H|H]; [subst c; vm_compute; split; discriminate | auto]).
Qed.

Lemma str_of_int_chars (n : Z) (c : char) :
  In c (str_of_int n) -> (48 <= c <= 57)%N \/ c = 45%N.
Proof.
  unfold str_of_int, NilZero.string_of_int. intro H.
  destruct (Z.to_int n) as [d|d].
  - left. unfold NilZero.string_of_uint in H.
    destruct d; try exact (uint_chars _ c H).
    destruct H as [<-|[]]. vm_compute. split; discriminate.
  - destruct H as [H|H]; [right; now subst c|]. left.
    unfold NilZero.string_of_uint in H.
    destruct d; try exact (uint_chars _ c H).
    destruct H as [<-|[]]. vm_compute. split; discriminate.
Qed.

Lemma str_of_int_no_fence (n : Z) : contains fence (str_of_int n) = false.
Proof.
  destruct (contains fence (str_of_int n)) eqn:E; [|reflexivity].
  change fence with (backtick :: [backtick; backtick]) in E.
  apply contains_head_in, str_of_int_chars in E. unfold backtick in E. lia.
Qed.

Lemma join_no_fence (l : list str) :
  forallb (fun c => negb (contains fence c)) l = true ->
  contains fence (join [nl] l) = false.
Proof.
  induction l as [|x l IH]; [reflexivity|].
  cbn [forallb]. intro H. apply andb_true_iff in H as [Hx Hl].
  apply negb_true_iff in Hx. destruct l as [|y l]; [exact Hx|].
  change (join [nl] (x :: y :: l)) with (x ++ [nl] ++ join [nl] (y :: l)).
  apply clean_before; [reflexivity | exact Hx|].
  apply clean_after; [reflexivity | reflexivity | now apply IH].
Qed.

Lemma lstrip_app_keep (a b : str) :
  lstrip a <> [] -> lstrip (a ++ b) = lstrip a ++ b.
Proof.
  induction a as [|c a IH]; simpl; [congruence|].
  destruct (isspace c); auto.
Qed.

Lemma rstrip_app_keep (a b : str) :
  rstrip b <> [] -> rstrip (a ++ b) = a ++ rstrip b.
Proof.
  intro H. unfold rstrip in *. rewrite rev_app_distr, lstrip_app_keep.
  - now rewrite rev_app_distr, rev_involutive.
  - intro E. apply H. now rewrite E.
Qed.

Lemma rstrip_app_nonempty (a b : str) :
  rstrip b <> [] -> rstrip (a ++ b) <> [].
Proof.
  intros H E. rewrite rstrip_app_keep in E by exact H.
  apply app_eq_nil in E as [_ E]. contradiction.
Qed.

(** Trims the right end of a template that ends with a fixed piece. *)
Ltac keep_tail :=
  repeat (rewrite rstrip_app_keep
            by (repeat apply rstrip_app_nonempty; vm_compute; discriminate)).

(** ** The fallback response *)


Lemma fallback_readme_clean (brief : str) (checks : option (list str))
    (meta : str) (round_num : Z) :
  contains fence brief = false -> contains fence meta = false ->
  forallb (fun c => negb (contains fence c)) (or_empty checks) = true ->
  contains fence (generate_readme_fallback brief checks (Some meta) round_num)
  = false.
Proof.
  intros Hb Hm Hc. apply join_no_fence in Hc.
  pose proof (str_of_int_no_fence round_num) as Hr.
  unfold generate_readme_fallback. cbn [or_empty]. clean.
Qed.

Lemma rstrip_tail_app (a b w : str) :
  rstrip b <> [] -> rstrip b ++ w = b -> rstrip (a ++ b) ++ w = a ++ b.
Proof.
  intros H E. rewrite rstrip_app_keep by exact H.
  now rewrite <- app_assoc, E.
Qed.

Lemma fallback_readme_trimmed (brief : str) (checks : option (list str))
    (meta : str) (round_num : Z) :
  let doc := generate_readme_fallback brief checks (Some meta) round_num in
  strip doc ++ [nl] = doc /\
  contains fallback_note (strip doc) = true /\
  20 <= length (strip doc).
Proof.
  intro doc. unfold strip.
  assert (El : lstrip doc = doc) by reflexivity. rewrite El.
  unfold doc, generate_readme_fallback. split; [|split].
  - repeat (apply rstrip_tail_app;
            [repeat apply rstrip_app_nonempty; vm_compute; discriminate|]).
    reflexivity.
  - keep_tail. unfold fallback_note. seek.
  - keep_tail. rewrite length_app.
    match goal with
    | |- context [length (lit ?s)] =>
        let n := eval vm_compute in (length (lit s)) in
        change (length (lit s)) with n
    end.
    lia.
Qed.

Lemma lstrip_all_space (s : str) : lstrip s = [] -> forallb isspace s = true.
Proof.
  intro H. destruct (lstrip_split s) as (ws & E & Hws).
  rewrite H, app_nil_r in E. now subst ws.
Qed.

(** White space around a text does not change its trimmed form. *)
Lemma strip_pad (ws1 s ws2 : str) :
  forallb isspace ws1 = true -> forallb isspace ws2 = true ->
  strip (ws1 ++ s ++ ws2) = strip s.
Proof.
  intros H1 H2. unfold strip. rewrite lstrip_spaces by exact H1.
  destruct (lstrip s) as [|c t] eqn:E.
  - apply lstrip_all_space in E.
    assert (Hl : lstrip (s ++ ws2) = []).
    { rewrite lstrip_spaces by exact E.
      destruct (lstrip_split ws2) as (ws & Ews & _).
      destruct (lstrip ws2) as [|x r] eqn:El; [reflexivity|].
      exfalso. pose proof (lstrip_head _ _ _ El) as Hx.
      rewrite Ews, forallb_app in H2. apply andb_true_iff in H2 as [_ H2].
      simpl in H2. now rewrite Hx in H2. }
    now rewrite Hl.
  - rewrite lstrip_app_keep by (rewrite E; discriminate).
    rewrite E. now apply rstrip_spaces.
Qed.

Lemma fallback_page_trimmed (brief : str) :
  strip (fallback_page brief) = fallback_page brief.
Proof.
  unfold strip.
  assert (El : lstrip (fallback_page brief) = fallback_page brief)
    by reflexivity.
  rewrite El. unfold fallback_page. keep_tail. reflexivity.
Qed.

Lemma fallback_response_cut (brief : str) (checks : option (list str))
    (meta : str) (round_num : Z) :
  contains marker brief = false ->
  cut marker (fallback_response brief checks meta round_num)
  = Some ([nl] ++ fallback_page brief ++ [nl; nl],
          [nl] ++ generate_readme_fallback brief checks (Some meta) round_num
               ++ [nl]).
Proof.
  intro Hb.
  set (a := [nl] ++ fallback_page brief ++ [nl]).
  set (b := [nl] ++ generate_readme_fallback brief checks (Some meta) round_num
                 ++ [nl]).
  replace ([nl] ++ fallback_page brief ++ [nl; nl]) with (a ++ [nl])
    by (unfold a; now rewrite <- !app_assoc).
  replace (fallback_response brief checks meta round_num)
    with (a ++ nl :: marker ++ b).
  - apply cut_after_sepchar.
    + apply outside_not_in. reflexivity.
    + unfold a, fallback_page. clean.
  - unfold a, b, fallback_response, fallback_page.
    rewrite <- !app_assoc. reflexivity.
Qed.

Lemma fallback_files (brief : str) (checks : option (list str))
    (meta : str) (round_num : Z) :
  contains marker brief = false -> contains fence brief = false ->
  contains fence meta = false ->
  forallb (fun c => negb (contains fence c)) (or_empty checks) = true ->
  parse_final brief checks meta round_num
    (fallback_response brief checks meta round_num)
  = inr [(index_html, fallback_page brief);
         (readme_md,
          strip (generate_readme_fallback brief checks (Some meta) round_num))].
Proof.
  intros Hm Hb Hmeta Hc.
  rewrite (parse_final_marker _ _ _ _ _ _ _
             (fallback_response_cut brief checks meta round_num Hm)).
  pose proof (fallback_readme_clean brief checks meta round_num Hb Hmeta Hc)
    as Hdoc.
  destruct (fallback_readme_trimmed brief checks meta round_num)
    as (_ & _ & Hlen).
  assert (Ecode : _strip_code_block ([nl] ++ fallback_page brief ++ [nl; nl])
                  = fallback_page brief).
  { rewrite strip_code_block_plain.
    - rewrite strip_pad by reflexivity. apply fallback_page_trimmed.
    - unfold fallback_page. clean. }
  assert (Edoc : _strip_code_block
                   ([nl] ++ generate_readme_fallback brief checks (Some meta)
                              round_num ++ [nl])
                 = strip (generate_readme_fallback brief checks (Some meta)
                            round_num)).
  { rewrite strip_code_block_plain.
    - now rewrite strip_pad by reflexivity.
    - clean. }
  rewrite Ecode, Edoc, strip_idem.
  destruct (Nat.ltb_spec
              (length (strip (generate_readme_fallback brief checks
                                (Some meta) round_num))) 20);
    [lia | reflexivity].
Qed.

Section Fallback.

Variable remote : nat -> str -> reply.
Variable decode_attachments : list attachment -> list saved_attachment.
Variable summarize_attachment_meta : list saved_attachment -> str.
Variable repr_checks : list str -> str.
Variable brief : str.
Variable atts : option (list attachment).
Variable checks : option (list str).
Variable round_num : Z.
Variable prev_readme : option str.

Let saved := decode_attachments (or_empty atts).
Let meta := summarize_attachment_meta saved.
Let prompt := base_prompt repr_checks brief meta checks round_num prev_readme.
Let outcome :=
  run (generate_app_code remote decode_attachments summarize_attachment_meta
         repr_checks brief atts checks round_num prev_readme).

(** C3 (amended). When every attempt returns text without the marker, and
    the brief holds neither the marker nor a triple backtick, and the
    attachment summary and the checks hold no triple backtick, the result
    carries under ["README.md"] the fallback document trimmed (the document
    less its final newline, with the fallback note) and under
    ["index.html"] the fallback page, in which the brief stands verbatim. *)
Theorem fallback_on_missing_marker :
  (forall k, k < max_attempts ->
     exists s, reply_text (remote k prompt) = inr (JStr s) /\
               contains marker s = false) ->
  contains marker brief = false -> contains fence brief = false ->
  contains fence meta = false ->
  forallb (fun c => negb (contains fence c)) (or_empty checks) = true ->
  let doc := generate_readme_fallback brief checks (Some meta) round_num in
  exists g readme,
    fst outcome = inr g /\
    lookup readme_md (files g) = Some readme /\
    readme = strip doc /\ readme ++ [nl] = doc /\
    contains fallback_note readme = true /\
    lookup index_html (files g) = Some (fallback_page brief) /\
    contains brief (fallback_page brief) = true.
Proof.
  intros Hrem Hm Hb Hmeta Hc doc.
  assert (Hv : forall k, k < max_attempts ->
            attempt_verdict (remote k prompt) = inr None).
  { intros k Hk. destruct (Hrem k Hk) as (s & Ht & Hs).
    unfold attempt_verdict. rewrite Ht. cbn [rbind].
    now apply examine_no_marker. }
  unfold outcome.
  rewrite (run_generate remote decode_attachments summarize_attachment_meta
             repr_checks brief atts checks round_num prev_readme).
  fold saved. fold meta. fold prompt.
  rewrite (Hv 0), (Hv 1) by (unfold max_attempts; lia).
  cbn [fst]. unfold finish. cbn [or_empty nonempty].
  rewrite (fallback_files brief checks meta round_num Hm Hb Hmeta Hc).
  cbn [rbind].
  destruct (fallback_readme_trimmed brief checks meta round_num)
    as (Hnl & Hnote & _).
  eexists _, (strip doc). split; [reflexivity|].
  repeat split; try assumption; try reflexivity.
  unfold fallback_page. seek.
Qed.

End Fallback.

(** ** The revision block of the prompt *)

Lemma str_of_int_no_directive (n : Z) :
  contains (lit "Revise and enhance") (str_of_int n) = false.
Proof.
  destruct (contains _ (str_of_int n)) eqn:E; [|reflexivity].
  destruct (contains_inv _ _ E) as (l & r & Es).
  assert (H : In 82%N (str_of_int n)).
  { rewrite Es. apply in_or_app. right. now left. }
  apply str_of_int_chars in H. lia.
Qed.

(** A piece known to hold the pattern, somewhere in a concatenation. *)
Ltac carry :=
  solve [ assumption
        | apply contains_in_left; carry
        | apply contains_in_right; carry ].

(** Without the revision block the directive is in the prompt exactly when
    one of the texts the caller supplies has it: the fixed lines of the
    template and the round number do not. *)
Lemma base_prompt_directive (repr_checks : list str -> str)
    (brief meta : str) (checks : option (list str)) (round_num : Z) :
  contains (lit "Revise and enhance")
    (base_prompt repr_checks brief meta checks round_num None)
  = contains (lit "Revise and enhance") brief
    || contains (lit "Revise and enhance") meta
    || contains (lit "Revise and enhance") (repr_checks (or_empty checks)).
Proof.
  pose proof (str_of_int_no_directive round_num) as Hr.
  unfold base_prompt.
  rewrite (context_note_off round_num None) by now right.
  destruct (contains _ brief) eqn:Hb; [cbn [orb]; carry|].
  destruct (contains _ meta) eqn:Hm; [cbn [orb]; carry|].
  destruct (contains _ (repr_checks _)) eqn:Hc; [cbn [orb]; carry|].
  cbn [orb]. clean.
Qed.

Section Revision.

Variable remote : nat -> str -> reply.
Variable decode_attachments : list attachment -> list saved_attachment.
Variable summarize_attachment_meta : list saved_attachment -> str.
Variable repr_checks : list str -> str.
Variable brief : str.
Variable atts : option (list attachment).
Variable checks : option (list str).
Variable round_num : Z.
Variable prev_readme : option str.

Let saved := decode_attachments (or_empty atts).
Let meta := summarize_attachment_meta saved.
Let prompt := base_prompt repr_checks brief meta checks round_num prev_readme.
Let outcome :=
  run (generate_app_code remote decode_attachments summarize_attachment_meta
         repr_checks brief atts checks round_num prev_readme).

(** C8 (amended). Every call to the remote service carries the assembled
    prompt.  In round 2 with a non-empty prior README the prompt contains
    that README in full and the words ["Revise and enhance"].  In another
    round, or without a prior README, or with an empty one, the revision
    block is empty: the prompt is the one assembled without a prior
    README, whatever [prev_readme] is, and it contains the words
    ["Revise and enhance"] exactly when the brief, the summary of the
    attachments or the rendered checks contain them. *)
Theorem prompt_revision_block :
  (exists tl, snd outcome = Post prompt :: tl) /\
  (forall q, In (Post q) (snd outcome) -> q = prompt) /\
  (round_num = 2%Z -> nonempty (or_empty prev_readme) = true ->
   contains (or_empty prev_readme) prompt = true /\
   contains (lit "Revise and enhance") prompt = true) /\
  (round_num <> 2%Z \/ nonempty (or_empty prev_readme) = false ->
   context_note round_num prev_readme = [] /\
   prompt = base_prompt repr_checks brief meta checks round_num None /\
   contains (lit "Revise and enhance") prompt
   = contains (lit "Revise and enhance") brief
     || contains (lit "Revise and enhance") meta
     || contains (lit "Revise and enhance") (repr_checks (or_empty checks))).
Proof.
  assert (Htrace : snd outcome = [Post prompt] \/
                   snd outcome = [Post prompt; Sleep 1; Post prompt]).
  { unfold outcome.
    rewrite (run_generate remote decode_attachments summarize_attachment_meta
               repr_checks brief atts checks round_num prev_readme).
    fold saved. fold meta. fold prompt.
    destruct (attempt_verdict (remote 0 prompt)) as [e|[s|]]; auto.
    destruct (attempt_verdict (remote 1 prompt)); auto. }
  split; [|split; [|split]].
  - destruct Htrace as [-> | ->]; eauto.
  - intros q Hq.
    destruct Htrace as [E|E]; rewrite E in Hq; simpl in Hq;
      intuition congruence.
  - intros Hr Hp. unfold prompt, base_prompt, context_note.
    rewrite Hr, Hp. cbn [Z.eqb Pos.eqb andb].
    split; seek.
  - intro H. rewrite (context_note_off _ _ H).
    assert (Hp : prompt
                 = base_prompt repr_checks brief meta checks round_num None).
    { unfold prompt, base_prompt. rewrite (context_note_off _ _ H).
      rewrite (context_note_off round_num None); [reflexivity|now right]. }
    split; [reflexivity|]. split; [exact Hp|].
    rewrite Hp. apply base_prompt_directive.
Qed.

End Revision.

(** ** Closed runs *)

(** C1, as stated, fails: with a service that times out, the first attempt
    raises and the exception reaches the caller; there is no retry and no
    fallback result. *)
Lemma transport_failure_reaches_caller :
  let p := base_prompt repr_plain (lit "build a todo app") [] None 1 None in
  run (generate_app_code (fun _ _ => Failed Timeout) no_files no_summary
         repr_plain (lit "build a todo app") None None 1 None)
  = (inl (RequestException Timeout), [Post p]).
Proof. vm_compute. reflexivity. Qed.

Lemma transport_failure_propagates_witness :
  let p := base_prompt repr_plain (lit "build a todo app") [] None 1 None in
  run (generate_app_code
         (remote_then (says (lit "hello")) (Failed ConnectionError))
         no_files no_summary repr_plain (lit "build a todo app")
         None None 1 None)
  = (inl (RequestException ConnectionError), [Post p; Sleep 1; Post p]).
Proof.
  intro p.
  apply (proj1 (proj2
           (transport_failure_propagates
              (remote_then (says (lit "hello")) (Failed ConnectionError))
              no_files no_summary repr_plain (lit "build a todo app")
              None None 1 None)));
    reflexivity.
Defined.

(** C2, as stated, fails: an accepted response that starts with the marker
    has an empty code section, and the result holds the empty string under
    ["index.html"]. *)
Lemma accepted_response_empty_index :
  returned_index
    (run (generate_app_code
            (fun _ _ => says (marker ++ sample_readme))
            no_files no_summary repr_plain (lit "build a todo app")
            None None 1 None))
  = Some [].
Proof. vm_compute. reflexivity. Qed.

Lemma returned_readme_nonempty_witness :
  exists g,
    fst (run (generate_app_code
                (fun _ _ => says (marker ++ sample_readme))
                no_files no_summary repr_plain (lit "build a todo app")
                None None 1 None)) = inr g /\
    exists code readme,
      lookup index_html (files g) = Some code /\
      lookup readme_md (files g) = Some readme /\ readme <> [].
Proof.
  eexists. split.
  - vm_compute. reflexivity.
  - apply (returned_readme_nonempty
             (fun _ _ => says (marker ++ sample_readme))
             no_files no_summary repr_plain (lit "build a todo app")
             None None 1 None).
    vm_compute. reflexivity.
Defined.

(** C3, as stated, fails: with the triple backtick in the brief the fence
    stripper cuts the fallback page down to the text between the fences,
    which does not hold the brief. *)
Lemma fallback_index_loses_brief :
  let brief := lit "Render markdown with ```code``` blocks" in
  returned_index
    (run (generate_app_code (fun _ _ => says (lit "hello"))
            no_files no_summary repr_plain brief None None 1 None))
  = Some (lit "code") /\
  contains brief (lit "code") = false.
Proof. vm_compute. split; reflexivity. Qed.

Lemma fallback_on_missing_marker_witness :
  exists g,
    fst (run (generate_app_code (fun _ _ => says (lit "hello"))
                no_files no_summary repr_plain (lit "build a todo app")
                None (Some [lit "has a list"; lit "has a button"]) 1 None))
    = inr g /\
    lookup index_html (files g) = Some (fallback_page (lit "build a todo app")).
Proof.
  destruct (fallback_on_missing_marker (fun _ _ => says (lit "hello"))
              no_files no_summary repr_plain (lit "build a todo app")
              None (Some [lit "has a list"; lit "has a button"]) 1 None)
    as (g & readme & Hg & _ & _ & _ & _ & Hi & _).
  - intros k _. exists (lit "hello"). split; reflexivity.
  - reflexivity.
  - reflexivity.
  - reflexivity.
  - reflexivity.
  - exists g. split; assumption.
Defined.

Lemma at_most_two_attempts_witness :
  let p := base_prompt repr_plain (lit "build a todo app") [] None 1 None in
  snd (run (generate_app_code
              (fun _ _ => says (sample_page ++ marker ++ sample_readme))
              no_files no_summary repr_plain (lit "build a todo app")
              None None 1 None))
  = [Post p].
Proof.
  intro p.
  apply (proj1 (proj2 (proj2
           (at_most_two_attempts
              (fun _ _ => says (sample_page ++ marker ++ sample_readme))
              no_files no_summary repr_plain (lit "build a todo app")
              None None 1 None)))
           (sample_page ++ marker ++ sample_readme) sample_page sample_readme);
    reflexivity.
Defined.

(** C8, as stated, fails: in round 1 without a prior README the prompt
    still contains the words of the directive when the brief has them. *)
Lemma prompt_directive_from_brief :
  let brief := lit "Revise and enhance the landing page" in
  let p := base_prompt repr_plain brief [] None 1 None in
  snd (run (generate_app_code (fun _ _ => says (lit "hello"))
              no_files no_summary repr_plain brief None None 1 None))
  = [Post p; Sleep 1; Post p] /\
  contains (lit "Revise and enhance") p = true.
Proof. vm_compute. split; reflexivity. Qed.

(** The text of the prior README can be in the prompt without the revision
    block: in round 1 the prior README ["Setup"] is not inserted, and the
    word stands in the fixed rules of the template. *)
Lemma prior_text_in_fixed_rules :
  let p := base_prompt repr_plain (lit "build a todo app") [] None 1
             (Some (lit "Setup")) in
  context_note 1 (Some (lit "Setup")) = [] /\
  p = base_prompt repr_plain (lit "build a todo app") [] None 1 None /\
  contains (lit "Setup") p = true.
Proof. vm_compute. repeat split. Qed.

Lemma prompt_revision_block_witness :
  let p := base_prompt repr_plain (lit "add dark mode") [] None 2
             (Some (lit "# Old")) in
  let q := base_prompt repr_plain (lit "add dark mode") [] None 1
             (Some (lit "# Old")) in
  (contains (lit "# Old") p = true /\
   contains (lit "Revise and enhance") p = true) /\
  q = base_prompt repr_plain (lit "add dark mode") [] None 1 None /\
  contains (lit "Revise and enhance") q = false.
Proof.
  intros p q. split; [|split].
  - apply (proj1 (proj2 (proj2
             (prompt_revision_block (fun _ _ => says (lit "hello"))
                no_files no_summary repr_plain (lit "add dark mode")
                None None 2 (Some (lit "# Old"))))));
      reflexivity.
  - apply (proj2 (proj2 (proj2
             (prompt_revision_block (fun _ _ => says (lit "hello"))
                no_files no_summary repr_plain (lit "add dark mode")
                None None 1 (Some (lit "# Old")))))).
    left. discriminate.
  - eapply eq_trans;
      [apply (proj2 (proj2 (proj2
                (prompt_revision_block (fun _ _ => says (lit "hello"))
                   no_files no_summary repr_plain (lit "add dark mode")
                   None None 1 (Some (lit "# Old"))))));
       left; discriminate
      | reflexivity].
Defined.

(** * Further properties of the code *)

(** ** The fence stripper *)

Lemma strip_keeps_clean (p s : str) :
  contains p s = false -> contains p (strip s) = false.
Proof.
  intro H. destruct (contains p (strip s)) eqn:E; [|reflexivity].
  destruct (strip_split s) as (l & r & Es).
  rewrite Es, (contains_mono p l (strip s) r E) in H. discriminate.
Qed.

Lemma second_part_clean (b : str) : contains fence (second_part b) = false.
Proof.
  unfold second_part. destruct (cut fence b) as [[a' b']|] eqn:E.
  - apply (cut_before_clean fence b a' b'); [discriminate | exact E].
  - now apply cut_none.
Qed.

Lemma strip_code_block_no_fence (text : str) :
  contains fence (_strip_code_block text) = false.
Proof.
  destruct (cut fence text) as [[a b]|] eqn:E.
  - rewrite (strip_code_block_fenced _ _ _ E).
    apply strip_keeps_clean, second_part_clean.
  - apply cut_none in E. rewrite (strip_code_block_plain _ E).
    now apply strip_keeps_clean.
Qed.

(** X1. Whatever the text, the result of [_strip_code_block] is a segment
    of it, has no white space at either end and holds no triple backtick;
    so stripping a second time changes nothing. *)
Theorem strip_code_block_idempotent (text : str) :
  (exists l r, text = l ++ _strip_code_block text ++ r) /\
  strip (_strip_code_block text) = _strip_code_block text /\
  contains fence (_strip_code_block text) = false /\
  _strip_code_block (_strip_code_block text) = _strip_code_block text.
Proof.
  split; [apply strip_code_block_segment|].
  split; [apply strip_code_block_stripped|].
  split; [apply strip_code_block_no_fence|].
  rewrite strip_code_block_plain by apply strip_code_block_no_fence.
  apply strip_code_block_stripped.
Qed.

(** X2. When the text holds a fence, everything before the first fence is
    dropped: the result is the trimmed text between the first fence and
    the next one, and what follows that one is dropped too; when the first
    fence is never closed, the result is all the text after it, trimmed. *)
Theorem strip_code_block_first_fence (text before after : str) :
  cut fence text = Some (before, after) ->
  (forall inner rest,
     cut fence after = Some (inner, rest) ->
     _strip_code_block text = strip inner) /\
  (contains fence after = false -> _strip_code_block text = strip after).
Proof.
  intro E. rewrite (strip_code_block_fenced _ _ _ E). unfold second_part.
  split.
  - intros inner rest E'. now rewrite E'.
  - intro H. apply cut_none in H. now rewrite H.
Qed.

Lemma strip_code_block_first_fence_witness :
  _strip_code_block (lit "Here is the page:
```html
<p>hi</p>
```
Enjoy!") = lit "html
<p>hi</p>" /\
  _strip_code_block (lit "intro ```<p>never closed</p> ")
  = lit "<p>never closed</p>".
Proof.
  split.
  - match goal with
    | |- _strip_code_block ?t = _ =>
        apply (proj1 (strip_code_block_first_fence t (lit "Here is the page:
") (lit "html
<p>hi</p>
```
Enjoy!") eq_refl) (lit "html
<p>hi</p>
") (lit "
Enjoy!"))
    end.
    reflexivity.
  - match goal with
    | |- _strip_code_block ?t = _ =>
        apply (proj2 (strip_code_block_first_fence t (lit "intro ")
                        (lit "<p>never closed</p> ") eq_refl))
    end.
    reflexivity.
Defined.

(** ** Text extraction: errors and odd shapes *)

Lemma foldM_raise {A B} (f : A -> B -> result A) (l : list B) (a : A) (e : exn) :
  foldM f a l = inl e -> exists a' x, In x l /\ f a' x = inl e.
Proof.
  revert a; induction l as [|b l IH]; intros a H; [discriminate|].
  simpl in H. destruct (f a b) as [e'|a'] eqn:E; simpl in H.
  - injection H as ->. exists a, b. split; [now left | exact E].
  - destruct (IH _ H) as (a'' & x & Hin & Hx).
    exists a'', x. split; [now right | exact Hx].
Qed.

Lemma py_iter_raise (v : json) (e : exn) : py_iter v = inl e -> e = TypeError.
Proof. destruct v; simpl; intro H; congruence. Qed.

Lemma content_step_raise (text : str) (c : json) (e : exn) :
  content_step text c = inl e -> e = TypeError.
Proof.
  destruct c as [| | | | | |kv]; simpl; try discriminate.
  destruct (dict_get (lit "text") kv) as [[]|]; intro H; congruence.
Qed.

Lemma output_step_raise (text : str) (item : json) (e : exn) :
  output_step text item = inl e -> e = AttributeError \/ e = TypeError.
Proof.
  destruct item as [| | | | | |kv]; simpl; try (intro H; left; congruence).
  destruct (py_iter _) as [e'|cs] eqn:Ei; simpl; intro H.
  - injection H as <-. right. exact (py_iter_raise _ _ Ei).
  - right. destruct (foldM_raise _ _ _ _ H) as (a' & x & _ & Hx).
    exact (content_step_raise _ _ _ Hx).
Qed.

Lemma choices_step_raise (text : str) (ch : json) (e : exn) :
  choices_step text ch = inl e -> e = AttributeError \/ e = TypeError.
Proof.
  destruct ch as [| | | | | |kv]; simpl; try (intro H; left; congruence).
  destruct (get_default (dict_get (lit "message") kv) (JObj []))
    as [| | | | | |msg]; try (intro H; left; congruence).
  destruct (truthy _); [|discriminate].
  destruct (get_default (dict_get (lit "content") msg) (JStr []));
    intro H; try discriminate; right; congruence.
Qed.

Lemma extract_text_exn (data : json) (e : exn) :
  extract_text data = inl e -> e = AttributeError \/ e = TypeError.
Proof.
  intro H. destruct data as [| | | | | |kv];
    try (simpl in H; left; congruence).
  unfold extract_text, dict_has in H.
  destruct (dict_get (lit "output_text") kv) as [v|]; simpl in H.
  + destruct (truthy v); [discriminate|].
    destruct (dict_get (lit "output") kv) as [out|].
    * destruct (py_iter out) as [e'|items] eqn:Ei; simpl in H.
      { injection H as <-. right. exact (py_iter_raise _ _ Ei). }
      destruct (foldM output_step [] items) as [e'|t] eqn:Ef;
        simpl in H; [|discriminate].
      injection H as <-. destruct (foldM_raise _ _ _ _ Ef) as (a & x & _ & Hx).
      exact (output_step_raise _ _ _ Hx).
    * destruct (dict_get (lit "choices") kv) as [chs|]; [|discriminate].
      destruct (py_iter chs) as [e'|items] eqn:Ei; simpl in H.
      { injection H as <-. right. exact (py_iter_raise _ _ Ei). }
      destruct (foldM choices_step [] items) as [e'|t] eqn:Ef;
        simpl in H; [|discriminate].
      injection H as <-. destruct (foldM_raise _ _ _ _ Ef) as (a & x & _ & Hx).
      exact (choices_step_raise _ _ _ Hx).
  + destruct (dict_get (lit "output") kv) as [out|].
    * destruct (py_iter out) as [e'|items] eqn:Ei; simpl in H.
      { injection H as <-. right. exact (py_iter_raise _ _ Ei). }
      destruct (foldM output_step [] items) as [e'|t] eqn:Ef;
        simpl in H; [|discriminate].
      injection H as <-. destruct (foldM_raise _ _ _ _ Ef) as (a & x & _ & Hx).
      exact (output_step_raise _ _ _ Hx).
    * destruct (dict_get (lit "choices") kv) as [chs|]; [|discriminate].
      destruct (py_iter chs) as [e'|items] eqn:Ei; simpl in H.
      { injection H as <-. right. exact (py_iter_raise _ _ Ei). }
      destruct (foldM choices_step [] items) as [e'|t] eqn:Ef;
        simpl in H; [|discriminate].
      injection H as <-. destruct (foldM_raise _ _ _ _ Ef) as (a & x & _ & Hx).
      exact (choices_step_raise _ _ _ Hx).
Qed.

(** X3. The extraction raises nothing but [AttributeError] and
    [TypeError]: the subscripts [data["output_text"]], [data["output"]] and
    [data["choices"]] are guarded and never raise [KeyError].  When it
    returns without a true ["output_text"], what it returns is a string. *)
Theorem extract_text_errors (data : json) :
  (forall e, extract_text data = inl e -> e = AttributeError \/ e = TypeError) /\
  (forall kv v,
     data = JObj kv ->
     truthy (get_default (dict_get (lit "output_text") kv) JNull) = false ->
     extract_text data = inr v -> exists s, v = JStr s).
Proof.
  split.
  - exact (extract_text_exn data).
  - intros kv v -> Hf H. unfold extract_text in H. rewrite Hf in H.
    destruct (dict_has (lit "output") kv).
    + destruct (dict_get (lit "output") kv) as [out|]; [|discriminate].
      destruct (py_iter out) as [e'|items]; [discriminate|]. simpl in H.
      destruct (foldM output_step [] items) as [e'|t]; [discriminate|].
      injection H as <-. now exists t.
    + destruct (dict_has (lit "choices") kv).
      * destruct (dict_get (lit "choices") kv) as [chs|]; [|discriminate].
        destruct (py_iter chs) as [e'|items]; [discriminate|]. simpl in H.
        destruct (foldM choices_step [] items) as [e'|t]; [discriminate|].
        injection H as <-. now exists t.
      * injection H as <-. now exists [].
Qed.

Lemma extract_text_errors_witness :
  exists s,
    extract_text
      (JObj [(lit "choices",
              JArr [JObj [(lit "message",
                           JObj [(lit "content", JStr (lit "hi"))])]])])
    = inr (JStr s).
Proof.
  destruct (proj2 (extract_text_errors
                     (JObj [(lit "choices",
                             JArr [JObj [(lit "message",
                                          JObj [(lit "content",
                                                 JStr (lit "hi"))])]])]))
              _ (JStr (lit "hi")) eq_refl eq_refl eq_refl) as [s Hs].
  exists s. now rewrite <- Hs.
Defined.

Lemma foldM_content_chars (s acc : str) :
  foldM content_step acc (map (fun c => JStr [c]) s) = inr (acc ++ s).
Proof.
  revert acc; induction s as [|c s IH]; intro acc; simpl.
  - now rewrite app_nil_r.
  - rewrite IH. now rewrite <- app_assoc.
Qed.

Lemma foldM_content_keys (d : list (str * json)) (acc : str) :
  foldM content_step acc (map (fun p => JStr (fst p)) d)
  = inr (acc ++ concat (map fst d)).
Proof.
  revert acc; induction d as [|[k v] d IH]; intro acc; simpl.
  - now rewrite app_nil_r.
  - rewrite IH. now rewrite <- app_assoc.
Qed.

(** X4. An output item whose ["content"] is a plain string adds that string
    to the text (the loop runs over its characters); one whose ["content"]
    is a dict adds the keys of the dict, in order. *)
Theorem output_content_not_a_list (kv : list (str * json)) (text : str) :
  (forall s, dict_get (lit "content") kv = Some (JStr s) ->
     output_step text (JObj kv) = inr (text ++ s)) /\
  (forall d, dict_get (lit "content") kv = Some (JObj d) ->
     output_step text (JObj kv) = inr (text ++ concat (map fst d))).
Proof.
  split.
  - intros s H. unfold output_step. rewrite H. simpl.
    apply foldM_content_chars.
  - intros d H. unfold output_step. rewrite H. simpl.
    apply foldM_content_keys.
Qed.

Lemma output_content_not_a_list_witness :
  extract_text
    (JObj [(lit "output",
            JArr [JObj [(lit "content", JStr (lit "<p>hi</p>"))]])])
  = inr (JStr (lit "<p>hi</p>")).
Proof.
  unfold extract_text, dict_has. simpl dict_get. cbn [truthy get_default py_iter rbind foldM].
  rewrite (proj1 (output_content_not_a_list
                    [(lit "content", JStr (lit "<p>hi</p>"))] [])
             (lit "<p>hi</p>") eq_refl).
  reflexivity.
Defined.

(** ** One attempt: what can be raised, what is accepted *)

Lemma readme_gate_value (c : str) : exists b, readme_gate c = inr b.
Proof.
  destruct (Nat.ltb_spec 50 (length (strip c))) as [Hlt|Hle].
  - destruct (readme_gate_long c Hlt) as (first & _ & Hg). eauto.
  - exists false. now apply gate_short_circuit.
Qed.

Lemma readme_gate_true_long (c : str) :
  readme_gate c = inr true -> 50 < length (strip c).
Proof.
  intro H. destruct (Nat.ltb_spec 50 (length (strip c))) as [Hlt|Hle];
    [exact Hlt|].
  unfold readme_gate in H. rewrite gate_short_circuit in H by exact Hle.
  discriminate.
Qed.

Lemma unpack_split_marker (s : str) :
  contains marker s = true ->
  exists code readme,
    cut marker s = Some (code, readme) /\
    unpack2 (split1 marker s) = inr (code, readme).
Proof.
  intro H. destruct (cut_some _ _ H) as (code & readme & E).
  exists code, readme. split; [exact E|]. unfold split1. now rewrite E.
Qed.

Lemma examine_raise (text : json) (e : exn) :
  examine text = inl e -> e = AttributeError \/ e = TypeError.
Proof.
  unfold examine. destruct text as [|b|n|f|s|l|kv]; cbn [truthy py_contains].
  - discriminate.
  - destruct b; cbn; intro H; [right; congruence | discriminate].
  - destruct (negb (n =? 0)%Z); cbn; intro H; [right; congruence | discriminate].
  - destruct f; cbn; intro H; try discriminate; right; congruence.
  - destruct (nonempty s); cbn [rbind]; [|discriminate].
    destruct (contains marker s) eqn:C; [|discriminate].
    cbn [as_str rbind].
    destruct (unpack_split_marker s C) as (code & readme & _ & ->).
    cbn [rbind].
    destruct (readme_gate_value (_strip_code_block readme)) as [b ->].
    discriminate.
  - destruct (nonempty l); cbn [rbind]; [|discriminate].
    destruct (existsb _ l); cbn; intro H; [left; congruence | discriminate].
  - destruct (nonempty kv); cbn [rbind]; [|discriminate].
    destruct (dict_has marker kv); cbn; intro H;
      [left; congruence | discriminate].
Qed.

Lemma examine_accepted (text : json) (s : str) :
  examine text = inr (Some s) ->
  text = JStr s /\
  exists code readme,
    cut marker s = Some (code, readme) /\
    readme_gate (_strip_code_block readme) = inr true.
Proof.
  unfold examine. destruct text as [|b|n|f|s'|l|kv]; cbn [truthy py_contains].
  - discriminate.
  - destruct b; discriminate.
  - destruct (negb (n =? 0)%Z); discriminate.
  - destruct f; discriminate.
  - destruct (nonempty s'); cbn [rbind]; [|discriminate].
    destruct (contains marker s') eqn:C; [|discriminate].
    cbn [as_str rbind].
    destruct (unpack_split_marker s' C) as (code & readme & E & ->).
    cbn [rbind].
    destruct (readme_gate (_strip_code_block readme)) as [e|[|]] eqn:G;
      cbn [rbind]; try discriminate.
    intro H. injection H as <-. split; [reflexivity|]. now exists code, readme.
  - destruct (nonempty l); cbn [rbind]; [|discriminate].
    destruct (existsb _ l); discriminate.
  - destruct (nonempty kv); cbn [rbind]; [|discriminate].
    destruct (dict_has marker kv); discriminate.
Qed.

Lemma examine_str (s : str) :
  examine (JStr s) = inr (Some s) \/ examine (JStr s) = inr None.
Proof.
  unfold examine. cbn [truthy py_contains].
  destruct (nonempty s); cbn [rbind]; [|now right].
  destruct (contains marker s) eqn:C; [|now right].
  cbn [as_str rbind].
  destruct (unpack_split_marker s C) as (code & readme & _ & ->).
  cbn [rbind].
  destruct (readme_gate_value (_strip_code_block readme)) as [[|] ->];
    cbn [rbind]; auto.
Qed.

(** X5. The tests the loop makes on the text of an attempt (lines 180 to
    183: its truth value and the search for the marker, the split at the
    marker and its unpacking into two parts, the fence stripping and the
    quality gate) raise nothing for a string, whatever it holds: the
    string is accepted or it is not.  For a text that is not a string they
    raise [AttributeError] or [TypeError] and nothing else. *)
Theorem examine_exceptions (text : json) :
  (forall e, examine text = inl e ->
     (e = AttributeError \/ e = TypeError) /\ forall s, text <> JStr s) /\
  (forall s, text = JStr s ->
     examine text = inr (Some s) \/ examine text = inr None).
Proof.
  split.
  - intros e H. split; [exact (examine_raise _ _ H)|].
    intros s ->. destruct (examine_str s) as [E|E]; congruence.
  - intros s ->. apply examine_str.
Qed.

Lemma verdict_accepted (r : reply) (s : str) :
  attempt_verdict r = inr (Some s) ->
  reply_text r = inr (JStr s) /\
  exists code readme,
    cut marker s = Some (code, readme) /\
    readme_gate (_strip_code_block readme) = inr true.
Proof.
  unfold attempt_verdict. destruct (reply_text r) as [e|text]; [discriminate|].
  cbn [rbind]. intro H. destruct (examine_accepted _ _ H) as [-> Hc].
  split; [reflexivity | exact Hc].
Qed.

Lemma finish_accepted (saved : list saved_attachment) (brief : str)
    (checks : option (list str)) (meta : str) (round_num : Z)
    (s code readme : str) :
  cut marker s = Some (code, readme) ->
  readme_gate (_strip_code_block readme) = inr true ->
  finish saved brief checks meta round_num (Some s)
  = inr {| files := [(index_html, _strip_code_block code);
                     (readme_md, _strip_code_block readme)];
           attachments := saved |}.
Proof.
  intros E G. unfold finish. cbn [or_empty].
  assert (Hs : nonempty s = true).
  { apply cut_inv in E. subst s. destruct code; reflexivity. }
  rewrite Hs, (parse_final_marker _ _ _ _ _ _ _ E).
  apply readme_gate_true_long in G.
  destruct (Nat.ltb_spec (length (strip (_strip_code_block readme))) 20);
    [lia | reflexivity].
Qed.

Lemma fallback_response_marker (brief : str) (checks : option (list str))
    (meta : str) (round_num : Z) :
  contains marker (fallback_response brief checks meta round_num) = true.
Proof. unfold fallback_response. seek. Qed.

(** The text handed to the final parse. *)
Lemma finish_parse (saved : list saved_attachment) (brief : str)
    (checks : option (list str)) (meta : str) (round_num : Z)
    (o : option str) (g : generation_result) :
  finish saved brief checks meta round_num o = inr g ->
  parse_final brief checks meta round_num
    (if nonempty (or_empty o) then or_empty o
     else fallback_response brief checks meta round_num)
  = inr (files g) /\ attachments g = saved.
Proof.
  unfold finish. cbv zeta.
  destruct (parse_final _ _ _ _ _) as [e|fs]; cbn [rbind]; [discriminate|].
  intro H. injection H as <-. split; reflexivity.
Qed.

Section Outcomes.

Variable remote : nat -> str -> reply.
Variable decode_attachments : list attachment -> list saved_attachment.
Variable summarize_attachment_meta : list saved_attachment -> str.
Variable repr_checks : list str -> str.
Variable brief : str.
Variable atts : option (list attachment).
Variable checks : option (list str).
Variable round_num : Z.
Variable prev_readme : option str.

Let saved := decode_attachments (or_empty atts).
Let meta := summarize_attachment_meta saved.
Let prompt := base_prompt repr_checks brief meta checks round_num prev_readme.
Let outcome :=
  run (generate_app_code remote decode_attachments summarize_attachment_meta
         repr_checks brief atts checks round_num prev_readme).

Lemma outcome_cases :
  outcome =
  match attempt_verdict (remote 0 prompt) with
  | inl e => (inl e, [Post prompt])
  | inr (Some s) =>
      (finish saved brief checks meta round_num (Some s), [Post prompt])
  | inr None =>
      match attempt_verdict (remote 1 prompt) with
      | inl e => (inl e, [Post prompt; Sleep 1; Post prompt])
      | inr o =>
          (finish saved brief checks meta round_num o,
           [Post prompt; Sleep 1; Post prompt])
      end
  end.
Proof.
  exact (run_generate remote decode_attachments summarize_attachment_meta
           repr_checks brief atts checks round_num prev_readme).
Qed.

(** The run returns what [finish] makes of the verdict of the last attempt,
    or raises what an attempt raised. *)
Lemma outcome_returned (g : generation_result) :
  fst outcome = inr g ->
  exists o,
    finish saved brief checks meta round_num o = inr g /\
    (o = None \/ exists k, k < max_attempts /\
                           attempt_verdict (remote k prompt) = inr o).
Proof.
  rewrite outcome_cases.
  destruct (attempt_verdict (remote 0 prompt)) as [e|[s|]] eqn:E0; cbn [fst].
  - discriminate.
  - intro H. exists (Some s). split; [exact H|]. right. exists 0.
    split; [unfold max_attempts; lia | exact E0].
  - destruct (attempt_verdict (remote 1 prompt)) as [e|o] eqn:E1; cbn [fst].
    + discriminate.
    + intro H. exists o. split; [exact H|]. right. exists 1.
      split; [unfold max_attempts; lia | exact E1].
Qed.

(** X6. The first accepted response is what is returned: when the first
    reply is a text that holds the marker and passes the gate, or the first
    is not accepted and the second is such a text, the result holds the
    fence-stripped code section and document section of that text, and
    nothing of the fallback. *)
Theorem accepted_response_returned (s code readme : str) :
  cut marker s = Some (code, readme) ->
  readme_gate (_strip_code_block readme) = inr true ->
  let g := {| files := [(index_html, _strip_code_block code);
                        (readme_md, _strip_code_block readme)];
              attachments := saved |} in
  (reply_text (remote 0 prompt) = inr (JStr s) ->
   outcome = (inr g, [Post prompt])) /\
  (attempt_verdict (remote 0 prompt) = inr None ->
   reply_text (remote 1 prompt) = inr (JStr s) ->
   outcome = (inr g, [Post prompt; Sleep 1; Post prompt])).
Proof.
  intros E G g. rewrite outcome_cases. split.
  - intro H0. unfold attempt_verdict at 1. rewrite H0. cbn [rbind].
    rewrite (examine_accept _ _ _ E G).
    now rewrite (finish_accepted saved brief checks meta round_num _ _ _ E G).
  - intros H0 H1. rewrite H0. unfold attempt_verdict. rewrite H1. cbn [rbind].
    rewrite (examine_accept _ _ _ E G).
    now rewrite (finish_accepted saved brief checks meta round_num _ _ _ E G).
Qed.

(** X7. A response that is not accepted is dropped whole: when neither
    attempt is accepted (and none raises), the result is the final parse of
    the fallback text, which depends on the brief, the checks, the
    attachment summary and the round only; no part of a reply is in it. *)
Theorem rejected_responses_dropped :
  attempt_verdict (remote 0 prompt) = inr None ->
  attempt_verdict (remote 1 prompt) = inr None ->
  exists fs,
    parse_final brief checks meta round_num
      (fallback_response brief checks meta round_num) = inr fs /\
    outcome = (inr {| files := fs; attachments := saved |},
               [Post prompt; Sleep 1; Post prompt]).
Proof.
  intros H0 H1. rewrite outcome_cases, H0, H1. unfold finish.
  cbn [or_empty nonempty].
  destruct (parse_final_total brief checks meta round_num
              (fallback_response brief checks meta round_num))
    as (code & readme & -> & _).
  eexists. split; reflexivity.
Qed.

(** X8. The text that reaches the final parse always holds the marker: it
    is the fallback text, or the text of an attempt that was accepted.  So
    the branch of the final parse for a text without marker (lines 219 to
    221) is never taken. *)
Theorem final_text_has_marker (g : generation_result) :
  fst outcome = inr g ->
  exists text,
    (text = fallback_response brief checks meta round_num \/
     exists k, k < max_attempts /\
               attempt_verdict (remote k prompt) = inr (Some text)) /\
    contains marker text = true /\
    parse_final brief checks meta round_num text = inr (files g).
Proof.
  intro H. destruct (outcome_returned g H) as (o & Hf & Ho).
  destruct (finish_parse _ _ _ _ _ _ _ Hf) as [Hp _].
  destruct o as [s|].
  - destruct Ho as [Ho|(k & Hk & Hv)]; [discriminate|].
    destruct (verdict_accepted _ _ Hv) as (_ & code & readme & E & _).
    cbn [or_empty] in Hp.
    assert (Hs : nonempty s = true).
    { apply cut_inv in E. subst s. destruct code; reflexivity. }
    rewrite Hs in Hp. exists s. split; [right; now exists k|].
    split; [exact (cut_contains _ _ _ _ E) | exact Hp].
  - cbn [or_empty nonempty] in Hp.
    exists (fallback_response brief checks meta round_num).
    split; [now left|].
    split; [apply fallback_response_marker | exact Hp].
Qed.

(** X9. The files of a result are trimmed and free of fences: the value of
    ["index.html"] has no white space at either end and no triple backtick,
    and the value of ["README.md"] is either the fallback document or a
    text of at least 20 characters with the same two properties. *)
Theorem result_files_trimmed (g : generation_result) :
  fst outcome = inr g ->
  exists code readme,
    files g = [(index_html, code); (readme_md, readme)] /\
    strip code = code /\ contains fence code = false /\
    (readme = generate_readme_fallback brief checks (Some meta) round_num \/
     20 <= length readme /\ strip readme = readme /\
     contains fence readme = false).
Proof.
  intro H. destruct (outcome_returned g H) as (o & Hf & _).
  destruct (finish_parse _ _ _ _ _ _ _ Hf) as [Hp _].
  match type of Hp with
  | parse_final _ _ _ _ ?t = _ => set (text := t) in Hp; clearbody text
  end.
  destruct (cut marker text) as [[c r]|] eqn:E.
  - rewrite (parse_final_marker _ _ _ _ _ _ _ E) in Hp.
    injection Hp as <-. eexists _, _. split; [reflexivity|].
    split; [apply strip_code_block_stripped|].
    split; [apply strip_code_block_no_fence|].
    destruct (Nat.ltb_spec (length (strip (_strip_code_block r))) 20) as [Hl|Hl].
    + now left.
    + right. rewrite strip_code_block_stripped in Hl.
      split; [exact Hl|].
      split; [apply strip_code_block_stripped | apply strip_code_block_no_fence].
  - apply cut_none in E. rewrite (parse_final_no_marker _ _ _ _ _ E) in Hp.
    injection Hp as <-. eexists _, _. split; [reflexivity|].
    split; [apply strip_code_block_stripped|].
    split; [apply strip_code_block_no_fence | now left].
Qed.

End Outcomes.

(** ** A reply that echoes the prompt *)

Lemma startswith_skipn_contains (p s : str) (i : nat) :
  startswith p (skipn i s) = true -> contains p s = true.
Proof.
  revert i; induction s as [|c s IH]; intros i H.
  - destruct i; exact H.
  - rewrite contains_cons. destruct i as [|i].
    + cbn [skipn] in H. now rewrite H.
    + cbn [skipn] in H. rewrite (IH i H). apply orb_true_r.
Qed.

Lemma cut_skip (sep a b c d : str) :
  (forall i, i < length a -> startswith sep (skipn i (a ++ b)) = false) ->
  cut sep b = Some (c, d) -> cut sep (a ++ b) = Some (a ++ c, d).
Proof.
  intros H E. induction a as [|x a IH]; [exact E|].
  assert (H0 : startswith sep ((x :: a) ++ b) = false)
    by (apply (H 0); simpl; lia).
  rewrite cut_unfold, H0. cbn [app]. rewrite IH; [reflexivity|].
  intros i Hi. apply (H (S i)). simpl. lia.
Qed.

Lemma skipn_app_short {A} (a b : list A) (i : nat) :
  i <= length a -> skipn i (a ++ b) = skipn i a ++ b.
Proof.
  revert i; induction a as [|x a IH]; intros i Hi.
  - simpl in Hi. assert (i = 0) by lia. now subst i.
  - destruct i as [|i]; [reflexivity|]. simpl. apply IH. simpl in Hi. lia.
Qed.

Lemma cut_skip_before (sep a b c d : str) :
  starts_outside sep b = true -> contains sep a = false ->
  cut sep b = Some (c, d) -> cut sep (a ++ b) = Some (a ++ c, d).
Proof.
  intros Hs Ha E. apply cut_skip; [|exact E].
  intros i Hi. unfold starts_outside in Hs.
  destruct b as [|x b]; [discriminate|]. apply outside_not_in in Hs.
  rewrite skipn_app_short by lia.
  rewrite (startswith_sepchar sep (skipn i a) b x Hs).
  destruct (startswith sep (skipn i a)) eqn:S; [|reflexivity].
  apply startswith_skipn_contains in S. congruence.
Qed.

Lemma cut_skip_after (sep a b c d : str) :
  ends_outside sep a = true -> contains sep a = false ->
  cut sep b = Some (c, d) -> cut sep (a ++ b) = Some (a ++ c, d).
Proof.
  intros He Ha E. apply cut_skip; [|exact E].
  intros i Hi. unfold ends_outside in He.
  destruct (rev a) as [|x ra] eqn:Er; [discriminate|].
  assert (Ea : a = rev ra ++ [x]).
  { rewrite <- (rev_involutive a), Er. reflexivity. }
  apply outside_not_in in He. subst a.
  rewrite length_app in Hi. simpl in Hi.
  rewrite <- app_assoc. cbn [app]. rewrite skipn_app_short by lia.
  rewrite (startswith_sepchar sep (skipn i (rev ra)) b x He).
  destruct (startswith sep (skipn i (rev ra))) eqn:S; [|reflexivity].
  apply startswith_skipn_contains in S.
  rewrite (contains_sepchar sep (rev ra) [] x He), S in Ha. discriminate.
Qed.

Lemma contains_incl (p s : str) (x : char) :
  contains p s = true -> In x p -> In x s.
Proof.
  intros H Hx. destruct (contains_inv _ _ H) as (l & r & ->).
  apply in_or_app. right. apply in_or_app. now left.
Qed.

Lemma str_of_int_no_marker (n : Z) : contains marker (str_of_int n) = false.
Proof.
  destruct (contains marker (str_of_int n)) eqn:E; [|reflexivity].
  assert (H : In 82%N (str_of_int n)).
  { apply (contains_incl marker _ 82%N E). vm_compute. tauto. }
  apply str_of_int_chars in H. lia.
Qed.

Lemma context_note_no_marker (r : Z) (prev : option str) :
  contains marker (or_empty prev) = false ->
  contains marker (context_note r prev) = false.
Proof.
  intro H. unfold context_note.
  destruct ((r =? 2)%Z && nonempty (or_empty prev)); [|reflexivity].
  clean.
Qed.

(** Walks to the first marker of a template through the pieces that hold
    none. *)
Ltac pass_pieces :=
  repeat first
    [ eapply cut_skip_after; [reflexivity | solve [clean] | ]
    | eapply cut_skip_before; [reflexivity | solve [clean] | ] ].

Lemma base_prompt_cut (repr_checks : list str -> str) (brief meta : str)
    (checks : option (list str)) (round_num : Z) (prev_readme : option str) :
  contains marker brief = false -> contains marker meta = false ->
  contains marker (repr_checks (or_empty checks)) = false ->
  contains marker (or_empty prev_readme) = false ->
  exists code,
    cut marker (base_prompt repr_checks brief meta checks round_num prev_readme)
    = Some (code, rules_tail).
Proof.
  intros Hb Hm Hc Hp.
  pose proof (str_of_int_no_marker round_num) as Hr.
  pose proof (context_note_no_marker round_num prev_readme Hp) as Hn.
  eexists. unfold base_prompt. pass_pieces.
  vm_compute. reflexivity.
Qed.

Lemma rules_tail_accepted :
  readme_gate (_strip_code_block rules_tail) = inr true.
Proof. vm_compute. reflexivity. Qed.

Lemma fallback_readme_heading (brief : str) (checks : option (list str))
    (meta : str) (round_num : Z) :
  let doc := generate_readme_fallback brief checks (Some meta) round_num in
  startswith (lit "# ") (strip doc) = true /\ 50 < length (strip doc).
Proof.
  intro doc. unfold strip.
  assert (El : lstrip doc = doc) by reflexivity. rewrite El.
  unfold doc, generate_readme_fallback. keep_tail. split; [reflexivity|].
  rewrite length_app.
  match goal with
  | |- context [length (lit ?s)] =>
      let n := eval vm_compute in (length (lit s)) in
      change (length (lit s)) with n
  end.
  rewrite !length_app.
  match goal with
  | |- context [length (rstrip (lit ?s))] =>
      let n := eval vm_compute in (length (rstrip (lit s))) in
      change (length (rstrip (lit s))) with n
  end.
  lia.
Qed.

Section Replies.

Variable remote : nat -> str -> reply.
Variable decode_attachments : list attachment -> list saved_attachment.
Variable summarize_attachment_meta : list saved_attachment -> str.
Variable repr_checks : list str -> str.
Variable brief : str.
Variable atts : option (list attachment).
Variable checks : option (list str).
Variable round_num : Z.
Variable prev_readme : option str.

Let saved := decode_attachments (or_empty atts).
Let meta := summarize_attachment_meta saved.
Let prompt := base_prompt repr_checks brief meta checks round_num prev_readme.
Let outcome :=
  run (generate_app_code remote decode_attachments summarize_attachment_meta
         repr_checks brief atts checks round_num prev_readme).

(** X10. A service that sends the prompt back is taken at its word: the
    prompt holds the marker in its format rules, and the rules after it
    are long enough and name ["Overview"].  When the brief, the attachment
    summary, the rendered checks and the prior README hold no marker, the
    echo is accepted on the first attempt, and ["README.md"] is the end of
    the rules. *)
Theorem echoed_prompt_accepted :
  contains marker brief = false -> contains marker meta = false ->
  contains marker (repr_checks (or_empty checks)) = false ->
  contains marker (or_empty prev_readme) = false ->
  reply_text (remote 0 prompt) = inr (JStr prompt) ->
  exists code,
    cut marker prompt = Some (code, rules_tail) /\
    outcome
    = (inr {| files := [(index_html, _strip_code_block code);
                        (readme_md, strip rules_tail)];
              attachments := saved |},
       [Post prompt]).
Proof.
  intros Hb Hm Hc Hp Hr.
  destruct (base_prompt_cut repr_checks brief meta checks round_num
              prev_readme Hb Hm Hc Hp) as [code E].
  fold prompt in E. exists code. split; [exact E|].
  unfold outcome.
  rewrite (run_generate remote decode_attachments summarize_attachment_meta
             repr_checks brief atts checks round_num prev_readme).
  fold saved. fold meta. fold prompt.
  unfold attempt_verdict at 1. rewrite Hr. cbn [rbind].
  rewrite (examine_accept _ _ _ E rules_tail_accepted).
  now rewrite (finish_accepted saved brief checks meta round_num _ _ _ E
                 rules_tail_accepted).
Qed.

(** X11. A true ["output_text"] that is not a string is not screened: a
    number or [true] makes [generate_app_code] raise [TypeError] on that
    attempt, while a non-empty list that does not have the marker among
    its elements counts as a text without marker, and the second attempt
    follows. *)
Theorem output_text_not_a_string (kv : list (str * json)) (v : json) :
  remote 0 prompt = Body (JObj kv) ->
  dict_get (lit "output_text") kv = Some v ->
  ((v = JBool true \/ exists n, v = JInt n /\ n <> 0%Z) ->
   outcome = (inl TypeError, [Post prompt])) /\
  (forall l, v = JArr l -> l <> [] -> ~ In (JStr marker) l ->
     snd outcome = [Post prompt; Sleep 1; Post prompt]).
Proof.
  intros Hr Hv.
  assert (Hx : truthy v = true ->
               attempt_verdict (remote 0 prompt) = examine v).
  { intro Ht. unfold attempt_verdict. rewrite Hr. cbn [reply_text].
    unfold extract_text. rewrite Hv. cbn [get_default]. now rewrite Ht. }
  unfold outcome.
  rewrite (run_generate remote decode_attachments summarize_attachment_meta
             repr_checks brief atts checks round_num prev_readme).
  fold saved. fold meta. fold prompt.
  split.
  - intros [-> | (n & -> & Hn)].
    + rewrite Hx by reflexivity. reflexivity.
    + apply Z.eqb_neq in Hn.
      assert (Ht : truthy (JInt n) = true) by (cbn [truthy]; now rewrite Hn).
      rewrite (Hx Ht). unfold examine. rewrite Ht. reflexivity.
  - intros l -> Hl Hin.
    assert (Ht : truthy (JArr l) = true) by (destruct l; [congruence | reflexivity]).
    rewrite (Hx Ht). unfold examine. rewrite Ht. cbn [py_contains].
    assert (He : existsb
                   (fun x => match x with
                             | JStr s => str_eqb marker s
                             | _ => false
                             end) l = false).
    { destruct (existsb _ l) eqn:Ex; [|reflexivity].
      apply existsb_exists in Ex as (x & Hx' & Hm).
      destruct x; try discriminate. apply str_eqb_eq in Hm. subst s.
      contradiction. }
    rewrite He. cbn [rbind].
    destruct (attempt_verdict (remote 1 prompt)); reflexivity.
Qed.

(** X12. The fallback document passes the quality gate itself, when the
    brief, the attachment summary and the checks hold no triple backtick:
    it is longer than 50 characters and its first line is a heading. *)
Theorem fallback_readme_passes_gate :
  contains fence brief = false -> contains fence meta = false ->
  forallb (fun c => negb (contains fence c)) (or_empty checks) = true ->
  readme_gate
    (_strip_code_block
       (generate_readme_fallback brief checks (Some meta) round_num))
  = inr true.
Proof.
  intros Hb Hm Hc.
  rewrite strip_code_block_plain
    by exact (fallback_readme_clean brief checks meta round_num Hb Hm Hc).
  destruct (fallback_readme_heading brief checks meta round_num) as [Hs Hl].
  rewrite <- strip_idem in Hl.
  destruct (readme_gate_long _ Hl) as (first & Hf & ->).
  destruct (startswith_inv _ _ Hs) as [rest Hr].
  destruct (first_line_heading _ rest Hr) as (first' & Hf' & Hh).
  rewrite Hf in Hf'. injection Hf' as ->. now rewrite Hh.
Qed.

End Replies.

(** ** The attachment materializer *)

Lemma contains_single (c : char) (s : str) :
  contains [c] s = existsb (N.eqb c) s.
Proof.
  induction s as [|x s IH]; [reflexivity|].
  rewrite contains_cons, IH. simpl. now rewrite andb_true_r.
Qed.

Lemma single_clean (c : char) (s : str) :
  contains [c] s = false <-> ~ In c s.
Proof.
  rewrite contains_single. split.
  - intros H Hin. assert (existsb (N.eqb c) s = true); [|congruence].
    apply existsb_exists. exists c. split; [exact Hin | apply N.eqb_refl].
  - intro H. destruct (existsb (N.eqb c) s) eqn:E; [|reflexivity].
    apply existsb_exists in E as (x & Hx & Heq). apply N.eqb_eq in Heq.
    subst x. contradiction.
Qed.

Lemma cut_single (c : char) (a b : str) :
  ~ In c a -> cut [c] (a ++ c :: b) = Some (a, b).
Proof.
  intro H. induction a as [|x a IH].
  - exact (cut_here [c] b).
  - rewrite cut_unfold. cbn [app startswith].
    destruct (N.eqb_spec c x) as [->|Hne]; [exfalso; apply H; now left|].
    cbn [andb]. rewrite IH; [reflexivity|]. intro Hin. apply H. now right.
Qed.

Lemma split_cut (sep s a b : str) :
  sep <> [] -> cut sep s = Some (a, b) -> split sep s = a :: split sep b.
Proof.
  intros Hne E. pose proof (cut_length _ _ _ _ E) as Hl.
  assert (0 < length sep) by (destruct sep; [congruence | simpl; lia]).
  unfold split at 1. destruct (length s) as [|n] eqn:En; [lia|].
  cbn [split_fuel]. rewrite E. f_equal.
  apply split_fuel_enough; [exact Hne | lia].
Qed.

Lemma split_clean (sep s : str) : cut sep s = None -> split sep s = [s].
Proof.
  intro E. unfold split. destruct (length s); cbn [split_fuel];
    [reflexivity | now rewrite E].
Qed.

Lemma in_firstn {A} (x : A) (n : nat) (l : list A) :
  In x (firstn n l) -> In x l.
Proof.
  revert l; induction n as [|n IH]; intros [|y l]; simpl; try tauto.
  intros [H|H]; [now left | right; now apply IH].
Qed.

Lemma join_in (x : char) (sep : str) (l : list str) :
  In x (join sep l) -> In x sep \/ exists p, In p l /\ In x p.
Proof.
  induction l as [|p l IH]; [contradiction|].
  destruct l as [|q l].
  - intro H. right. exists p. split; [now left | exact H].
  - change (join sep (p :: q :: l)) with (p ++ sep ++ join sep (q :: l)).
    intro H. apply in_app_or in H as [H|H].
    + right. exists p. split; [now left | exact H].
    + apply in_app_or in H as [H|H]; [now left|].
      destruct (IH H) as [Hs|(p' & Hp & Hx)]; [now left|].
      right. exists p'. split; [now right | exact Hx].
Qed.

Lemma preview_no_newline (content : str) : ~ In nl (preview_of content).
Proof.
  unfold preview_of, replace. intro H. apply in_firstn, join_in in H.
  destruct H as [H|(p & Hp & Hx)].
  - vm_compute in H. intuition discriminate.
  - destruct (split_parts [nl] (firstn 500 content)) as [_ Hf];
      [discriminate|].
    rewrite Forall_forall in Hf. apply Hf in Hp.
    apply single_clean in Hp. contradiction.
Qed.

(** X13. A preview has at most 500 characters and no newline in it (a
    newline of the file is written as a backslash and an [n]); a file of at
    most 500 characters without newline is its own preview. *)
Theorem preview_of_bounds (content : str) :
  length (preview_of content) <= 500 /\
  ~ In nl (preview_of content) /\
  (length content <= 500 -> ~ In nl content -> preview_of content = content).
Proof.
  split; [|split; [apply preview_no_newline|]]; unfold preview_of, replace.
  - rewrite length_firstn. lia.
  - intros Hl Hn.
    replace (firstn 500 content) with content
      by (symmetry; now apply firstn_all2).
    apply single_clean, cut_none in Hn. rewrite (split_clean _ _ Hn).
    cbn [join]. now apply firstn_all2.
Qed.

Lemma preview_of_bounds_witness :
  preview_of (lit "id,name") = lit "id,name".
Proof.
  apply (proj2 (proj2 (preview_of_bounds (lit "id,name")))).
  - vm_compute. lia.
  - vm_compute. intuition discriminate.
Defined.

Lemma split_head (sep s : str) :
  nth 0 (split sep s) [] =
  match cut sep s with
  | Some (a, _) => a
  | None => s
  end.
Proof.
  unfold split. destruct (length s) as [|n] eqn:En.
  - destruct s; [|discriminate]. cbn [split_fuel nth].
    destruct (cut sep []) as [[a b]|] eqn:E; [|reflexivity].
    apply cut_inv in E. symmetry in E. apply app_eq_nil in E as [-> _].
    reflexivity.
  - cbn [split_fuel]. destruct (cut sep s) as [[a b]|]; reflexivity.
Qed.

(** The type of a well-formed header: what stands between ["data:"] and
    the first [";"], or the end. *)
Lemma mime_of_header_plain (m params : str) :
  contains (lit ";") m = false -> contains (lit "data:") m = false ->
  params = [] \/ startswith (lit ";") params = true ->
  mime_of_header (lit "data:" ++ m ++ params) = m.
Proof.
  intros Hs Hd Hp. unfold mime_of_header. rewrite split_head.
  assert (Hm : ~ In 59%N (lit "data:" ++ m)).
  { intro H. apply in_app_or in H as [H|H].
    - vm_compute in H. intuition discriminate.
    - apply (proj1 (single_clean 59%N m)) in Hs. contradiction. }
  assert (Hhead : match cut (lit ";") (lit "data:" ++ m ++ params) with
                  | Some (a, _) => a
                  | None => lit "data:" ++ m ++ params
                  end = lit "data:" ++ m).
  { destruct Hp as [-> | Hp].
    - rewrite app_nil_r.
      assert (E : cut (lit ";") (lit "data:" ++ m) = None)
        by (apply cut_none, (proj2 (single_clean 59%N _)); exact Hm).
      now rewrite E.
    - destruct (startswith_inv _ _ Hp) as [rest ->].
      pose proof (cut_single 59%N (lit "data:" ++ m) rest Hm) as Ec.
      replace (lit "data:" ++ m ++ lit ";" ++ rest)
        with ((lit "data:" ++ m) ++ 59%N :: rest)
        by (now rewrite <- app_assoc).
      change (cut (lit ";") ((lit "data:" ++ m) ++ 59%N :: rest)
              = Some (lit "data:" ++ m, rest)) in Ec.
      now rewrite Ec. }
  rewrite Hhead. unfold replace.
  rewrite (split_cut (lit "data:") (lit "data:" ++ m) [] m);
    [|discriminate | exact (cut_here (lit "data:") m)].
  apply cut_none in Hd. rewrite (split_clean _ _ Hd). reflexivity.
Qed.

Section MaterializerFacts.

Variable fs : Type.
Variable b64decode : str -> option (list Byte.byte).
Variable tmp_path : str -> str.
Variable write_file : fs -> str -> list Byte.byte -> fs * bool.

Let step := decode_step b64decode tmp_path write_file.
Let decode := decode_attachments b64decode tmp_path write_file.

Lemma decode_step_acc (sv : list saved_attachment) (st : fs) (a : attachment) :
  step (sv, st) a = (sv ++ fst (step ([], st) a), snd (step ([], st) a)).
Proof.
  unfold step, decode_step. cbn [fst snd].
  destruct (negb (startswith (lit "data:") (att_url a)));
    [now rewrite app_nil_r|].
  destruct (unpack2 (split1 (lit ",") (att_url a))) as [e|[header payload]];
    [now rewrite app_nil_r|].
  destruct (b64decode payload) as [data|]; [|now rewrite app_nil_r].
  destruct (write_file st (tmp_path (attachment_name a)) data) as [st' [|]];
    cbn [fst snd]; [reflexivity | now rewrite app_nil_r].
Qed.

Lemma decode_fold_acc (l : list attachment) (sv : list saved_attachment)
    (st : fs) :
  fold_left step l (sv, st)
  = (sv ++ fst (fold_left step l ([], st)), snd (fold_left step l ([], st))).
Proof.
  revert sv st; induction l as [|a l IH]; intros sv st; cbn [fold_left].
  - cbn [fst snd]. now rewrite app_nil_r.
  - rewrite decode_step_acc.
    destruct (step ([], st) a) as [sv1 st1] eqn:E. cbn [fst snd].
    rewrite (IH (sv ++ sv1) st1), (IH sv1 st1).
    cbn [fst snd]. now rewrite app_assoc.
Qed.

Lemma decode_step_length (st : fs) (a : attachment) :
  length (fst (step ([], st) a)) <= 1.
Proof.
  unfold step, decode_step. cbn [fst snd].
  destruct (negb _); [simpl; lia|].
  destruct (unpack2 _) as [e|[header payload]]; [simpl; lia|].
  destruct (b64decode payload) as [data|]; [|simpl; lia].
  destruct (write_file _ _ _) as [st' [|]]; simpl; lia.
Qed.

(** X14. The attachments are decoded one after the other, each on the file
    system the earlier ones left, and the records come in the order of the
    attachments: decoding a list in two parts gives the records of the
    first part followed by those of the second.  There is at most one
    record per attachment. *)
Theorem decode_attachments_app (st : fs) (l1 l2 : list attachment) :
  decode st (Some (l1 ++ l2))
  = (fst (decode st (Some l1))
       ++ fst (decode (snd (decode st (Some l1))) (Some l2)),
     snd (decode (snd (decode st (Some l1))) (Some l2))) /\
  length (fst (decode st (Some l1))) <= length l1.
Proof.
  unfold decode, decode_attachments. cbn [or_empty]. fold step. split.
  - rewrite fold_left_app.
    destruct (fold_left step l1 ([], st)) as [sv1 st1]. cbn [fst snd].
    apply decode_fold_acc.
  - revert st; induction l1 as [|a l IH]; intro st; [simpl; lia|].
    cbn [fold_left]. destruct (step ([], st) a) as [sv1 st1] eqn:E.
    rewrite decode_fold_acc. cbn [fst]. rewrite length_app.
    pose proof (decode_step_length st a) as H1. rewrite E in H1.
    cbn [fst] in H1. specialize (IH st1). simpl. lia.
Qed.

Lemma decode_step_link (acc : list saved_attachment * fs) (a : attachment) :
  startswith (lit "data:") (att_url a) = false -> step acc a = acc.
Proof. intro H. unfold step, decode_step. now rewrite H. Qed.

Lemma decode_fold_inline (l : list attachment)
    (acc : list saved_attachment * fs) :
  fold_left step l acc
  = fold_left step
      (filter (fun a => startswith (lit "data:") (att_url a)) l) acc.
Proof.
  revert acc; induction l as [|a l IH]; intro acc; [reflexivity|].
  cbn [fold_left filter].
  destruct (startswith (lit "data:") (att_url a)) eqn:E.
  - cbn [fold_left]. apply IH.
  - rewrite (decode_step_link acc a E). apply IH.
Qed.

Lemma decode_skip_all (st : fs) (l : list attachment) :
  (forall a, In a l -> startswith (lit "data:") (att_url a) = false) ->
  decode st (Some l) = ([], st).
Proof.
  intro H.
  unfold decode, decode_attachments. cbn [or_empty]. fold step.
  induction l as [|a l IH]; [reflexivity|].
  cbn [fold_left]. rewrite decode_step_link by (apply H; now left).
  apply IH. intros a' Hin. apply H. now right.
Qed.

(** X15. Only the attachments whose url starts with ["data:"] count: the
    others are passed over before the [try] block is entered (line 77), so
    the records and the file system are those of the list with the others
    taken out, wherever they stand in it, and a list of such others alone
    gives no record and leaves the file system as it was. *)
Theorem decode_attachments_skips (st : fs) (l : list attachment) :
  decode st (Some l)
  = decode st
      (Some (filter (fun a => startswith (lit "data:") (att_url a)) l)) /\
  decode st
    (Some (filter (fun a => negb (startswith (lit "data:") (att_url a))) l))
  = ([], st).
Proof.
  split.
  - unfold decode, decode_attachments. cbn [or_empty]. fold step.
    apply decode_fold_inline.
  - apply decode_skip_all. intros a Ha. apply filter_In in Ha.
    destruct Ha as [_ Ha]. now apply negb_true_iff in Ha.
Qed.

Lemma decode_step_record (st : fs) (a : attachment) (r : saved_attachment) :
  In r (fst (step ([], st) a)) ->
  exists header payload data,
    startswith (lit "data:") (att_url a) = true /\
    cut (lit ",") (att_url a) = Some (header, payload) /\
    b64decode payload = Some data /\
    saved_name r = attachment_name a /\
    saved_path r = tmp_path (attachment_name a) /\
    saved_mime r = mime_of_header header /\
    saved_size r = length data.
Proof.
  unfold step, decode_step. cbn [fst snd].
  destruct (startswith (lit "data:") (att_url a)) eqn:Hd; cbn [negb];
    [|contradiction].
  unfold split1.
  destruct (cut (lit ",") (att_url a)) as [[header payload]|] eqn:E;
    cbn [unpack2]; [|contradiction].
  destruct (b64decode payload) as [data|] eqn:Hb; [|contradiction].
  destruct (write_file st (tmp_path (attachment_name a)) data) as [st' [|]];
    cbn [fst]; [|contradiction].
  intros [<-|[]]. exists header, payload, data. repeat split; assumption.
Qed.

Lemma attachment_name_nonempty (a : attachment) : attachment_name a <> [].
Proof.
  unfold attachment_name.
  destruct (att_name a) as [[|c n]|]; intro H; vm_compute in H;
    discriminate H.
Qed.

Lemma attachment_name_given (a : attachment) (name : str) :
  att_name a = Some name -> name <> [] -> attachment_name a = name.
Proof.
  unfold attachment_name. intros -> H. destruct name; [congruence | reflexivity].
Qed.

(** X16. Every record comes from an attachment of the list whose url starts
    with ["data:"] and holds a comma: its name is the name of the
    attachment, or ["attachment"] when that is missing or empty (never the
    empty string), its path is the temporary path of that name (two
    attachments of one name share the path), its size is the number of
    bytes decoded from what follows the first comma. *)
Theorem decode_attachments_records (st : fs) (atts : option (list attachment))
    (r : saved_attachment) :
  In r (fst (decode st atts)) ->
  exists a header payload data,
    In a (or_empty atts) /\
    startswith (lit "data:") (att_url a) = true /\
    cut (lit ",") (att_url a) = Some (header, payload) /\
    b64decode payload = Some data /\
    saved_name r = attachment_name a /\ saved_name r <> [] /\
    (forall n, att_name a = Some n -> n <> [] -> saved_name r = n) /\
    saved_path r = tmp_path (saved_name r) /\
    saved_mime r = mime_of_header header /\
    saved_size r = length data.
Proof.
  unfold decode, decode_attachments. fold step.
  generalize (or_empty atts) as l. intro l. revert st.
  induction l as [|a l IH]; intros st H; [contradiction|].
  cbn [fold_left] in H. destruct (step ([], st) a) as [sv1 st1] eqn:E.
  rewrite decode_fold_acc in H. cbn [fst] in H.
  apply in_app_or in H as [H|H].
  - assert (Hr : In r (fst (step ([], st) a))) by (now rewrite E).
    destruct (decode_step_record st a r Hr)
      as (header & payload & data & Hd & Hc & Hb & Hn & Hp & Hm & Hs).
    exists a, header, payload, data.
    repeat split; try assumption; try (now left).
    + rewrite Hn. apply attachment_name_nonempty.
    + intros n Ha Hne. rewrite Hn. now apply attachment_name_given.
    + now rewrite Hn.
  - destruct (IH st1 H) as (a' & header & payload & data & Hin & Hrest).
    exists a', header, payload, data. split; [now right | exact Hrest].
Qed.

(** X17. A well-formed data URI is decoded whatever its parameters say:
    for a url made of ["data:"], a type without [";"], [","] or ["data:"],
    parameters without comma (none, or [";base64"], or any other), a comma
    and a payload that decodes, the record carries that type and the size
    of the decoded payload; the [base64] flag is not looked at. *)
Theorem decode_data_uri (st st' : fs) (name : option str)
    (m params payload : str) (data : list Byte.byte) :
  contains (lit ";") m = false -> contains (lit ",") m = false ->
  contains (lit "data:") m = false ->
  contains (lit ",") params = false ->
  params = [] \/ startswith (lit ";") params = true ->
  b64decode payload = Some data ->
  let a := {| att_name := name;
              att_url := lit "data:" ++ m ++ params ++ lit "," ++ payload |} in
  write_file st (tmp_path (attachment_name a)) data = (st', true) ->
  decode st (Some [a])
  = ([{| saved_name := attachment_name a;
         saved_path := tmp_path (attachment_name a);
         saved_mime := m;
         saved_size := length data |}], st').
Proof.
  intros Hs Hc Hd Hpc Hp Hb a Hw.
  unfold decode, decode_attachments. cbn [or_empty fold_left].
  unfold decode_step. cbn [fst snd att_url a].
  assert (Hstart : startswith (lit "data:")
                     (lit "data:" ++ m ++ params ++ lit "," ++ payload) = true)
    by apply startswith_app.
  rewrite Hstart. cbn [negb].
  assert (Hcut : cut (lit ",")
                   (lit "data:" ++ m ++ params ++ lit "," ++ payload)
                 = Some (lit "data:" ++ m ++ params, payload)).
  { replace (lit "data:" ++ m ++ params ++ lit "," ++ payload)
      with ((lit "data:" ++ m ++ params) ++ 44%N :: payload)
      by (now rewrite <- !app_assoc).
    apply (cut_single 44%N (lit "data:" ++ m ++ params) payload).
    intro H. apply in_app_or in H as [H|H].
    - vm_compute in H. intuition discriminate.
    - apply in_app_or in H as [H|H].
      + apply (proj1 (single_clean 44%N m)) in Hc. contradiction.
      + apply (proj1 (single_clean 44%N params)) in Hpc. contradiction. }
  unfold split1. rewrite Hcut. cbn [unpack2]. rewrite Hb.
  fold a. rewrite Hw.
  now rewrite (mime_of_header_plain m params Hs Hd Hp).
Qed.

Variable read_text : fs -> str -> str + str.

Lemma summary_line_no_newline (st : fs) (r : saved_attachment) :
  ~ In nl (saved_name r) -> ~ In nl (saved_mime r) ->
  (forall e, read_text st (saved_path r) = inl e -> ~ In nl e) ->
  ~ In nl (summary_line read_text st r).
Proof.
  intros Hn Hm He. unfold summary_line.
  assert (Hlit : forall s, existsb (N.eqb nl) (lit s) = false -> ~ In nl (lit s)).
  { intros s E Hin. assert (existsb (N.eqb nl) (lit s) = true); [|congruence].
    apply existsb_exists. exists nl. split; [exact Hin | reflexivity]. }
  destruct (startswith (lit "text") (saved_mime r)
            || existsb (endswith (saved_name r)) text_suffixes).
  - destruct (read_text st (saved_path r)) as [e|content] eqn:Er.
    + intro H. repeat (apply in_app_or in H as [H|H]);
        try (revert H; apply Hlit; reflexivity);
        try contradiction.
      exact (He e eq_refl H).
    + intro H. repeat (apply in_app_or in H as [H|H]);
        try (revert H; apply Hlit; reflexivity);
        try contradiction.
      exact (preview_no_newline content H).
  - intro H. repeat (apply in_app_or in H as [H|H]);
      try (revert H; apply Hlit; reflexivity);
      try contradiction.
    apply str_of_int_chars in H. unfold nl in H. lia.
Qed.

Lemma count_char_app (c : char) (a b : str) :
  count_char c (a ++ b) = count_char c a + count_char c b.
Proof. unfold count_char. now rewrite filter_app, length_app. Qed.

Lemma count_char_absent (c : char) (s : str) :
  ~ In c s -> count_char c s = 0.
Proof.
  unfold count_char. induction s as [|x s IH]; [reflexivity|].
  intro H. simpl. destruct (N.eqb_spec c x) as [->|_].
  - exfalso. apply H. now left.
  - apply IH. intro Hin. apply H. now right.
Qed.

Lemma count_newlines_join (lines : list str) :
  (forall l, In l lines -> ~ In nl l) -> lines <> [] ->
  S (count_char nl (join [nl] lines)) = length lines.
Proof.
  induction lines as [|x lines IH]; [congruence|].
  intros H _. destruct lines as [|y lines].
  - cbn [join length]. rewrite count_char_absent; [reflexivity|].
    apply H. now left.
  - change (join [nl] (x :: y :: lines))
      with (x ++ [nl] ++ join [nl] (y :: lines)).
    rewrite !count_char_app, (count_char_absent nl x) by (apply H; now left).
    change (count_char nl [nl]) with 1.
    assert (IH' : S (count_char nl (join [nl] (y :: lines)))
                  = length (y :: lines)).
    { apply IH; [|discriminate]. intros l Hl. apply H. now right. }
    cbn [length] in *. lia.
Qed.

(** X18. The summary has one line per saved attachment: when no name, no
    type and no error message holds a newline, the summary of a non-empty
    list has exactly one newline less than there are attachments, whatever
    the files contain. *)
Theorem summary_one_line_each (st : fs) (saved : list saved_attachment) :
  (forall r, In r saved ->
     ~ In nl (saved_name r) /\ ~ In nl (saved_mime r) /\
     forall e, read_text st (saved_path r) = inl e -> ~ In nl e) ->
  saved <> [] ->
  S (count_char nl (summarize_attachment_meta read_text st saved))
  = length saved.
Proof.
  intros H Hne. unfold summarize_attachment_meta.
  rewrite count_newlines_join.
  - apply length_map.
  - intros l Hl. apply in_map_iff in Hl as (r & <- & Hr).
    destruct (H r Hr) as (Hn & Hm & He).
    now apply summary_line_no_newline.
  - destruct saved; [congruence | discriminate].
Qed.

End MaterializerFacts.

(** ** The materializer inside the pipeline *)

Section Materialized.

Variable fs : Type.
Variable b64decode : str -> option (list Byte.byte).
Variable tmp_path : str -> str.
Variable write_file : fs -> str -> list Byte.byte -> fs * bool.
Variable read_text : fs -> str -> str + str.
Variable st : fs.
Variable remote : nat -> str -> reply.
Variable repr_checks : list str -> str.
Variable brief : str.
Variable atts : option (list attachment).
Variable checks : option (list str).
Variable round_num : Z.
Variable prev_readme : option str.

Let decoded := decode_attachments b64decode tmp_path write_file st atts.
Let outcome :=
  run (generate_app_code remote
         (fun l => fst (decode_attachments b64decode tmp_path write_file st
                          (Some l)))
         (summarize_attachment_meta read_text (snd decoded))
         repr_checks brief atts checks round_num prev_readme).

(** X19. Without an inline attachment nothing is materialized: when no url
    starts with ["data:"], the attachments block of every prompt sent is
    empty, and a result, when there is one, lists no attachment. *)
Theorem no_inline_attachment :
  (forall a, In a (or_empty atts) ->
     startswith (lit "data:") (att_url a) = false) ->
  (forall q, In (Post q) (snd outcome) ->
     q = base_prompt repr_checks brief [] checks round_num prev_readme) /\
  (forall g, fst outcome = inr g -> attachments g = []).
Proof.
  intro H.
  assert (Hd : fst (decode_attachments b64decode tmp_path write_file st
                      (Some (or_empty atts))) = []).
  { rewrite (decode_skip_all fs b64decode tmp_path write_file st (or_empty atts));
      [reflexivity|].
    intros a Ha. now apply H. }
  unfold outcome.
  rewrite (run_generate remote _ _ repr_checks brief atts checks round_num
             prev_readme).
  rewrite Hd. cbn [summarize_attachment_meta map join].
  set (p := base_prompt repr_checks brief [] checks round_num prev_readme).
  split.
  - intros q Hq.
    destruct (attempt_verdict (remote 0 p)) as [e|[s|]];
      [| |destruct (attempt_verdict (remote 1 p))];
      cbn [snd] in Hq; simpl in Hq; intuition congruence.
  - intros g Hg.
    destruct (attempt_verdict (remote 0 p)) as [e|[s|]];
      [discriminate | |
       destruct (attempt_verdict (remote 1 p)) as [e|o]; [discriminate|]];
      cbn [fst] in Hg;
      destruct (finish_parse _ _ _ _ _ _ _ Hg) as [_ Ha]; exact Ha.
Qed.

End Materialized.

(** ** Closed examples *)

Lemma examine_exceptions_witness :
  examine (JBool true) = inl TypeError /\
  (TypeError = AttributeError \/ TypeError = TypeError) /\
  examine (JStr (lit "<h1>Hi</h1>")) = inr None.
Proof.
  split; [reflexivity|split].
  - exact (proj1 (proj1 (examine_exceptions (JBool true)) TypeError eq_refl)).
  - destruct (proj2 (examine_exceptions (JStr (lit "<h1>Hi</h1>")))
                (lit "<h1>Hi</h1>") eq_refl) as [H|H];
      [discriminate H | exact H].
Defined.

Lemma accepted_response_returned_witness :
  let p := base_prompt repr_plain (lit "build a todo app") [] None 1 None in
  run (generate_app_code
         (remote_then (says (lit "sorry")) (says (sample_page ++ marker ++ sample_readme)))
         no_files no_summary repr_plain (lit "build a todo app")
         None None 1 None)
  = (inr {| files := [(index_html, _strip_code_block sample_page);
                      (readme_md, _strip_code_block sample_readme)];
            attachments := [] |},
     [Post p; Sleep 1; Post p]).
Proof.
  intro p.
  apply (proj2 (accepted_response_returned
                  (remote_then (says (lit "sorry"))
                     (says (sample_page ++ marker ++ sample_readme)))
                  no_files no_summary repr_plain (lit "build a todo app")
                  None None 1 None
                  (sample_page ++ marker ++ sample_readme)
                  sample_page sample_readme eq_refl eq_refl));
    reflexivity.
Defined.

Lemma rejected_responses_dropped_witness :
  exists fs,
    fst (run (generate_app_code
                (fun _ _ => says (lit "<p>all mine</p>---README.md---short"))
                no_files no_summary repr_plain (lit "build a todo app")
                None None 1 None))
    = inr {| files := fs; attachments := [] |} /\
    lookup index_html fs = Some (fallback_page (lit "build a todo app")).
Proof.
  destruct (rejected_responses_dropped
              (fun _ _ => says (lit "<p>all mine</p>---README.md---short"))
              no_files no_summary repr_plain (lit "build a todo app")
              None None 1 None eq_refl eq_refl) as (fs & Hp & Ho).
  exists fs. rewrite Ho. split; [reflexivity|].
  vm_compute in Hp. injection Hp as <-. vm_compute. reflexivity.
Defined.

Lemma final_text_has_marker_witness :
  exists text,
    contains marker text = true /\
    parse_final (lit "build a todo app") None [] 1 text
    = inr [(index_html, lit "<p>ok</p>");
           (readme_md, _strip_code_block sample_readme)].
Proof.
  destruct (final_text_has_marker
              (fun _ _ => says (sample_page ++ marker ++ sample_readme))
              no_files no_summary repr_plain (lit "build a todo app")
              None None 1 None
              {| files := [(index_html, lit "<p>ok</p>");
                           (readme_md, _strip_code_block sample_readme)];
                 attachments := [] |} eq_refl)
    as (text & _ & Hc & Hp).
  exists text. split; assumption.
Defined.

Lemma result_files_trimmed_witness :
  exists code readme,
    [(index_html, lit "<p>ok</p>"); (readme_md, _strip_code_block sample_readme)]
    = [(index_html, code); (readme_md, readme)] /\
    strip code = code /\ contains fence code = false.
Proof.
  destruct (result_files_trimmed
              (fun _ _ => says (sample_page ++ marker ++ sample_readme))
              no_files no_summary repr_plain (lit "build a todo app")
              None None 1 None
              {| files := [(index_html, lit "<p>ok</p>");
                           (readme_md, _strip_code_block sample_readme)];
                 attachments := [] |} eq_refl)
    as (code & readme & Hf & Hs & Hc & _).
  exists code, readme. repeat split; assumption.
Defined.

Lemma echoed_prompt_accepted_witness :
  exists code,
    fst (run (generate_app_code (fun _ p => says p)
                no_files no_summary repr_plain (lit "build a todo app")
                None None 1 None))
    = inr {| files := [(index_html, _strip_code_block code);
                       (readme_md, strip rules_tail)];
             attachments := [] |}.
Proof.
  destruct (echoed_prompt_accepted (fun _ p => says p)
              no_files no_summary repr_plain (lit "build a todo app")
              None None 1 None eq_refl eq_refl eq_refl eq_refl eq_refl)
    as (code & _ & Ho).
  exists code. now rewrite Ho.
Defined.

Lemma output_text_not_a_string_witness :
  let p := base_prompt repr_plain (lit "build a todo app") [] None 1 None in
  run (generate_app_code
         (fun _ _ => Body (JObj [(lit "output_text", JInt 5)]))
         no_files no_summary repr_plain (lit "build a todo app")
         None None 1 None)
  = (inl TypeError, [Post p]).
Proof.
  intro p.
  apply (proj1 (output_text_not_a_string
                  (fun _ _ => Body (JObj [(lit "output_text", JInt 5)]))
                  no_files no_summary repr_plain (lit "build a todo app")
                  None None 1 None
                  [(lit "output_text", JInt 5)] (JInt 5) eq_refl eq_refl)).
  right. exists 5%Z. split; [reflexivity | discriminate].
Defined.

Lemma fallback_readme_passes_gate_witness :
  readme_gate
    (_strip_code_block
       (generate_readme_fallback (lit "build a todo app")
          (Some [lit "has a list"]) (Some []) 1))
  = inr true.
Proof.
  apply (fallback_readme_passes_gate no_files no_summary
           (lit "build a todo app") None (Some [lit "has a list"]) 1);
    reflexivity.
Defined.

Lemma decode_attachments_records_witness :
  exists a header payload data,
    In a [sample_link; sample_inline] /\
    startswith (lit "data:") (att_url a) = true /\
    cut (lit ",") (att_url a) = Some (header, payload) /\
    sample_b64decode payload = Some data /\
    saved_size sample_record = length data.
Proof.
  destruct (decode_attachments_records sample_fs sample_b64decode
              sample_tmp_path sample_write_file []
              (Some [sample_link; sample_inline]) sample_record)
    as (a & header & payload & data & Ha & Hd & Hc & Hb & _ & _ & _ & _ & _ & Hs).
  - vm_compute. left. reflexivity.
  - exists a, header, payload, data. repeat split; assumption.
Defined.

Lemma decode_data_uri_witness :
  decode_attachments sample_b64decode sample_tmp_path sample_write_file []
    (Some [sample_inline])
  = ([sample_record],
     [(lit "/tmp/llm_attachments/a.txt",
       [Byte.x68; Byte.x65; Byte.x6c; Byte.x6c; Byte.x6f])]).
Proof.
  apply (decode_data_uri sample_fs sample_b64decode sample_tmp_path
           sample_write_file [] _ (Some (lit "a.txt"))
           (lit "text/plain") (lit ";base64") (lit "aGVsbG8=")
           [Byte.x68; Byte.x65; Byte.x6c; Byte.x6c; Byte.x6f]);
    try reflexivity.
  right. reflexivity.
Defined.

Lemma summary_one_line_each_witness :
  S (count_char nl
       (summarize_attachment_meta sample_read_text
          [(lit "/tmp/llm_attachments/a.txt",
            [Byte.x68; Byte.x65; Byte.x6c; Byte.x6c; Byte.x6f])]
          [sample_record; sample_record]))
  = 2.
Proof.
  apply (summary_one_line_each sample_fs sample_read_text
           [(lit "/tmp/llm_attachments/a.txt",
             [Byte.x68; Byte.x65; Byte.x6c; Byte.x6c; Byte.x6f])]
           [sample_record; sample_record]).
  - intros r [<-|[<-|[]]]; (split; [|split]);
      try (vm_compute; intuition discriminate);
      intros e He; vm_compute in He; discriminate.
  - discriminate.
Defined.

Lemma no_inline_attachment_witness :
  exists g,
    fst (run (generate_app_code (fun _ _ => says (lit "hello"))
                (fun l => fst (decode_attachments sample_b64decode
                                 sample_tmp_path sample_write_file []
                                 (Some l)))
                (summarize_attachment_meta sample_read_text
                   (snd (decode_attachments sample_b64decode sample_tmp_path
                           sample_write_file [] (Some [sample_link]))))
                repr_plain (lit "build a todo app")
                (Some [sample_link]) None 1 None)) = inr g /\
    attachments g = [].
Proof.
  pose proof (proj2 (no_inline_attachment sample_fs sample_b64decode
                  sample_tmp_path sample_write_file sample_read_text []
                  (fun _ _ => says (lit "hello")) repr_plain
                  (lit "build a todo app") (Some [sample_link]) None 1 None
                  (fun a Ha =>
                     match Ha with
                     | or_introl E =>
                         eq_ind sample_link
                           (fun x => startswith (lit "data:") (att_url x) = false)
                           eq_refl a E
                     | or_intror F => match F with end
                     end))) as P.
  eexists. split.
  - vm_compute. reflexivity.
  - apply P. vm_compute. reflexivity.
Defined.
